(** * Declaration injection (lib/Sema/SemaInject.cpp): a shallow embedding

    The semantic actions of SemaInject.cpp are embedded as Rocq functions
    over an explicit [Sema] state.  AST nodes are records that carry the
    node's address and its constant attributes; the attributes the actions
    mutate live in a store indexed by address.  Contract violations of the
    C++ code (a failed [assert], a [cast<>] to the wrong class, a null
    dereference, [llvm_unreachable]) are the [Crash] outcome of the monad
    [M].  The services of the surrounding compiler that are not part of
    this file (declaration substitution, reflection evaluation, ...) are
    the fields of a [Host] record every action is parameterised by. *)

From Stdlib Require Import ZArith Lia.
From stdpp Require Import base option list strings gmap.

Local Open Scope string_scope.
Local Open Scope Z_scope.
Local Open Scope list_scope.

#[local] Set Warnings "-register-all".

(** ** The AST the actions are written against

    The classes of the AST are not part of the sources; a node is modelled
    by the observations the actions make of it. *)

Definition DeclID := positive.
Definition SourceLocation := nat.
Definition IdentifierInfo := string.

Inductive DeclKind :=
| K_TranslationUnit | K_Namespace | K_LinkageSpec | K_Enum
| K_CXXRecord | K_ClassTemplateSpecialization | K_CXXFragment
| K_Function | K_CXXMethod | K_CXXConstructor | K_CXXDestructor
| K_Var | K_ParmVar | K_Field | K_TypeAlias.

Inductive StorageClass := SC_None | SC_Extern | SC_Static | SC_Auto | SC_Register.

Inductive AccessSpecifier := AS_public | AS_protected | AS_private | AS_none.

Inductive InitializationStyle := CInit | CallInit | ListInit.

(** Constant observations on a declaration that the actions only read. *)
Record DeclBits := mkBits {
  InjectedClassName : bool;       (* CXXRecordDecl::isInjectedClassName *)
  InlineNamespace : bool;         (* DeclContext::isInlineNamespace *)
  LocalVarDeclOrParm : bool;      (* VarDecl::isLocalVarDeclOrParm *)
  LocalStorage : bool;            (* VarDecl::hasLocalStorage *)
  FragmentClass : bool;           (* CXXRecordDecl::isFragment *)
  Defaulted : bool;               (* FunctionDecl::isDefaulted *)
  Deleted : bool;                 (* FunctionDecl::isDeleted *)
  Defined : bool;                 (* FunctionDecl::isDefined *)
  ThisDeclarationADefinition : bool;
  HasDefinition : bool
}.

Definition noBits : DeclBits :=
  mkBits false false false false false false false false false false.

(** Types and template arguments, over the type [D] of declaration nodes
    (a record type refers to its class declaration). *)
Inductive QualTypeOf (D : Type) : Type :=
| NullTy                                    (* QualType() *)
| DependentTy                               (* Context.DependentTy *)
| BuiltinTy (name : string)
| RecordTy (Class : D)
| TypedefTy (name : string) (Underlying : QualTypeOf D).

Inductive TemplateArgumentOf (D : Type) : Type :=
| TA_Type (T : QualTypeOf D)
| TA_Integral (v : Z)
| TA_Pack (size : nat).

Arguments NullTy {D}.
Arguments DependentTy {D}.
Arguments BuiltinTy {D} name.
Arguments RecordTy {D} Class.
Arguments TypedefTy {D} name Underlying.
Arguments TA_Type {D} T.
Arguments TA_Integral {D} v.
Arguments TA_Pack {D} size.

(** A declaration node: its address [declID] (pointer identity), its dynamic
    class, and what [getIdentifier], [getLocation], [getType],
    [getStorageClass], [getDeclContext], [getTemplateArgs], [bases] and
    [getFieldIndex] return for it.  [declIdentifier] is [None] for an
    unnamed declaration ([getIdentifier] returns a null pointer), and
    [declContext] is [None] only for the translation unit. *)
Inductive Decl : Type := mkDecl {
  declID : DeclID;
  declKind : DeclKind;
  declIdentifier : option IdentifierInfo;
  declLocation : SourceLocation;
  declType : QualTypeOf Decl;
  declStorageClass : StorageClass;
  declContext : option Decl;
  declTemplateArgs : list (TemplateArgumentOf Decl);
  declBases : list (QualTypeOf Decl);
  declFieldIndex : nat;
  declBits : DeclBits
}.

Definition QualType := QualTypeOf Decl.
Definition TemplateArgument := TemplateArgumentOf Decl.

Definition DeclContext := Decl.

(** Pointer comparison of two nodes. *)
Definition sameDecl (D1 D2 : Decl) : bool := bool_decide (declID D1 = declID D2).

Definition sameDeclOpt (D1 D2 : option Decl) : bool :=
  match D1, D2 with
  | Some A, Some B => sameDecl A B
  | None, None => true
  | _, _ => false
  end.

(** *** [isa<>] over the class hierarchy of declarations *)

Definition isa_VarDecl (D : Decl) : bool :=
  match declKind D with K_Var | K_ParmVar => true | _ => false end.

Definition isa_FieldDecl (D : Decl) : bool :=
  match declKind D with K_Field => true | _ => false end.

Definition isa_CXXRecordDecl (D : Decl) : bool :=
  match declKind D with K_CXXRecord | K_ClassTemplateSpecialization => true | _ => false end.

Definition isa_ClassTemplateSpecializationDecl (D : Decl) : bool :=
  match declKind D with K_ClassTemplateSpecialization => true | _ => false end.

Definition isa_NamespaceDecl (D : Decl) : bool :=
  match declKind D with K_Namespace => true | _ => false end.

Definition isa_CXXFragmentDecl (D : Decl) : bool :=
  match declKind D with K_CXXFragment => true | _ => false end.

Definition isa_FunctionDecl (D : Decl) : bool :=
  match declKind D with
  | K_Function | K_CXXMethod | K_CXXConstructor | K_CXXDestructor => true
  | _ => false
  end.

Definition isa_CXXMethodDecl (D : Decl) : bool :=
  match declKind D with K_CXXMethod | K_CXXConstructor | K_CXXDestructor => true | _ => false end.

Definition isa_CXXDestructorDecl (D : Decl) : bool :=
  match declKind D with K_CXXDestructor => true | _ => false end.

(** The declarations that are declaration contexts
    ([Decl::castToDeclContext] is defined on exactly these). *)
Definition isa_DeclContext (D : Decl) : bool :=
  match declKind D with
  | K_TranslationUnit | K_Namespace | K_LinkageSpec | K_Enum
  | K_CXXRecord | K_ClassTemplateSpecialization | K_CXXFragment
  | K_Function | K_CXXMethod | K_CXXConstructor | K_CXXDestructor => true
  | _ => false
  end.

(** *** The [DeclContext] kind predicates *)

Definition isRecord (DC : DeclContext) : bool := isa_CXXRecordDecl DC.

Definition isNamespace (DC : DeclContext) : bool := isa_NamespaceDecl DC.

Definition isTranslationUnit (DC : DeclContext) : bool :=
  match declKind DC with K_TranslationUnit => true | _ => false end.

Definition isFileContext (DC : DeclContext) : bool :=
  isTranslationUnit DC || isNamespace DC.

Definition isFunctionOrMethod (DC : DeclContext) : bool := isa_FunctionDecl DC.

Definition isInlineNamespace (DC : DeclContext) : bool :=
  isNamespace DC && InlineNamespace (declBits DC).

Definition isInjectedClassName (D : Decl) : bool := InjectedClassName (declBits D).

(** *** Types *)

Fixpoint getCanonicalType (T : QualType) : QualType :=
  match T with
  | TypedefTy _ U => getCanonicalType U
  | _ => T
  end.

Definition isRecordType (T : QualType) : bool :=
  match getCanonicalType T with RecordTy _ => true | _ => false end.

Definition getAsCXXRecordDecl (T : QualType) : option Decl :=
  match getCanonicalType T with RecordTy C => Some C | _ => None end.

Definition isNull (T : QualType) : bool :=
  match T with NullTy => true | _ => false end.

(** *** Constant values and expressions *)

Inductive APValue :=
| APNone
| APInt (v : Z)
| APStruct (Bases : list APValue) (Fields : list APValue).

Record TypedValue := mkTypedValue { tvType : QualType; tvValue : APValue }.

Inductive CastKind := CK_LValueToRValue | CK_NoOp.
Inductive ExprValueKind := VK_RValue | VK_LValue.

Inductive Expr :=
| DeclRefExpr (D : Decl) (T : QualType) (VK : ExprValueKind) (Loc : SourceLocation)
| ImplicitCastExpr (T : QualType) (CK : CastKind) (Sub : Expr) (VK : ExprValueKind)
| OpaqueValueExpr (Loc : SourceLocation) (T : QualType) (VK : ExprValueKind)
                  (Source : option Expr)
| CXXConstantExpr (Sub : Expr) (V : APValue)
| OtherExpr (T : QualType) (Loc : SourceLocation).

Fixpoint getExprType (E : Expr) : QualType :=
  match E with
  | DeclRefExpr _ T _ _ => T
  | ImplicitCastExpr T _ _ _ => T
  | OpaqueValueExpr _ T _ _ => T
  | CXXConstantExpr Sub _ => getExprType Sub
  | OtherExpr T _ => T
  end.

Fixpoint getExprLoc (E : Expr) : SourceLocation :=
  match E with
  | DeclRefExpr _ _ _ Loc => Loc
  | ImplicitCastExpr _ _ Sub _ => getExprLoc Sub
  | OpaqueValueExpr Loc _ _ _ => Loc
  | CXXConstantExpr Sub _ => getExprLoc Sub
  | OtherExpr _ Loc => Loc
  end.

(** What a reflection evaluates to. *)
Inductive ReflectedConstruct :=
| RC_Invalid
| RC_Declaration (D : Decl)
| RC_Type (T : QualType).

Definition getAsDeclaration (C : ReflectedConstruct) : option Decl :=
  match C with RC_Declaration D => Some D | _ => None end.

Definition getAsType (C : ReflectedConstruct) : option QualType :=
  match C with RC_Type T => Some T | _ => None end.

(** A lexical scope: the declarations registered in it (in iteration
    order), the declaration context it is the scope of, and its parent. *)
Inductive Scope := mkScope {
  scopeDecls : list Decl;
  scopeEntity : option DeclContext;
  scopeParent : option Scope
}.

(** ** The state of semantic analysis *)

Inductive DiagID :=
| err_invalid_injection
| err_injecting_local_into_invalid_scope
| err_reflection_not_a_decl
| err_modifies_mem_spec_of_non_member
| err_declration_cannot_be_made_constexpr
| err_virtual_non_function
| err_cannot_make_pure_virtual.

(** One emitted diagnostic: [Diag(Loc, ID) << arg << ...]. *)
Record Diagnostic := mkDiag {
  diagLoc : SourceLocation;
  diagID : DiagID;
  diagArgs : list Z
}.

(** The attributes of a declaration that the actions mutate. *)
Record DeclState := mkDeclState {
  dsInvalid : bool;                       (* setInvalidDecl / isInvalidDecl *)
  dsAccess : AccessSpecifier;             (* setAccess / getAccess *)
  dsConstexpr : bool;                     (* setConstexpr *)
  dsImplicit : bool;                      (* setImplicit *)
  dsReferenced : bool;                    (* setReferenced *)
  dsUsed : bool;                          (* markUsed *)
  dsVirtualAsWritten : bool;              (* setVirtualAsWritten *)
  dsInitStyle : InitializationStyle;      (* setInitStyle *)
  dsInit : option Expr;                   (* setInit / the in-class initializer *)
  dsDecls : list Decl;                    (* DeclContext::decls(), addDecl *)
  dsContent : option Decl                 (* CXXFragmentDecl::setContent *)
}.

Definition newDeclState : DeclState :=
  mkDeclState false AS_none false false false false false CInit None [] None.

Definition withInvalid (b : bool) (s : DeclState) : DeclState :=
  mkDeclState b (dsAccess s) (dsConstexpr s) (dsImplicit s) (dsReferenced s) (dsUsed s)
    (dsVirtualAsWritten s) (dsInitStyle s) (dsInit s) (dsDecls s) (dsContent s).

Definition withAccess (a : AccessSpecifier) (s : DeclState) : DeclState :=
  mkDeclState (dsInvalid s) a (dsConstexpr s) (dsImplicit s) (dsReferenced s) (dsUsed s)
    (dsVirtualAsWritten s) (dsInitStyle s) (dsInit s) (dsDecls s) (dsContent s).

Definition withConstexpr (b : bool) (s : DeclState) : DeclState :=
  mkDeclState (dsInvalid s) (dsAccess s) b (dsImplicit s) (dsReferenced s) (dsUsed s)
    (dsVirtualAsWritten s) (dsInitStyle s) (dsInit s) (dsDecls s) (dsContent s).

Definition withImplicit (b : bool) (s : DeclState) : DeclState :=
  mkDeclState (dsInvalid s) (dsAccess s) (dsConstexpr s) b (dsReferenced s) (dsUsed s)
    (dsVirtualAsWritten s) (dsInitStyle s) (dsInit s) (dsDecls s) (dsContent s).

Definition withReferenced (b : bool) (s : DeclState) : DeclState :=
  mkDeclState (dsInvalid s) (dsAccess s) (dsConstexpr s) (dsImplicit s) b (dsUsed s)
    (dsVirtualAsWritten s) (dsInitStyle s) (dsInit s) (dsDecls s) (dsContent s).

Definition withUsed (b : bool) (s : DeclState) : DeclState :=
  mkDeclState (dsInvalid s) (dsAccess s) (dsConstexpr s) (dsImplicit s) (dsReferenced s) b
    (dsVirtualAsWritten s) (dsInitStyle s) (dsInit s) (dsDecls s) (dsContent s).

Definition withVirtualAsWritten (b : bool) (s : DeclState) : DeclState :=
  mkDeclState (dsInvalid s) (dsAccess s) (dsConstexpr s) (dsImplicit s) (dsReferenced s)
    (dsUsed s) b (dsInitStyle s) (dsInit s) (dsDecls s) (dsContent s).

Definition withInitStyle (i : InitializationStyle) (s : DeclState) : DeclState :=
  mkDeclState (dsInvalid s) (dsAccess s) (dsConstexpr s) (dsImplicit s) (dsReferenced s)
    (dsUsed s) (dsVirtualAsWritten s) i (dsInit s) (dsDecls s) (dsContent s).

Definition withInit (e : option Expr) (s : DeclState) : DeclState :=
  mkDeclState (dsInvalid s) (dsAccess s) (dsConstexpr s) (dsImplicit s) (dsReferenced s)
    (dsUsed s) (dsVirtualAsWritten s) (dsInitStyle s) e (dsDecls s) (dsContent s).

Definition withDecls (l : list Decl) (s : DeclState) : DeclState :=
  mkDeclState (dsInvalid s) (dsAccess s) (dsConstexpr s) (dsImplicit s) (dsReferenced s)
    (dsUsed s) (dsVirtualAsWritten s) (dsInitStyle s) (dsInit s) l (dsContent s).

Definition withContent (c : option Decl) (s : DeclState) : DeclState :=
  mkDeclState (dsInvalid s) (dsAccess s) (dsConstexpr s) (dsImplicit s) (dsReferenced s)
    (dsUsed s) (dsVirtualAsWritten s) (dsInitStyle s) (dsInit s) (dsDecls s) c.

(** The substitution environment of one injection (class InjectionContext):
    [Prev] is the tail of the stack [CurrentInjectionContext] below. *)
Record InjectionContext := mkInjectionContext {
  Injectee : DeclContext;
  DeclSubsts : gmap DeclID Decl;
  PlaceholderSubsts : gmap DeclID TypedValue
}.

(** What is written to [llvm::errs()]. *)
Inductive Printed := PrintedDecl (D : Decl) | PrintedType (T : QualType).

Record Sema := mkSema {
  Diags : list Diagnostic;                        (* diagnostics, oldest first *)
  CurContext : DeclContext;
  CurScope : option Scope;
  CurrentInjectionContext : list InjectionContext; (* innermost first *)
  NextDecl : DeclID;                               (* next address of the ASTContext *)
  Store : gmap DeclID DeclState;
  Errs : list Printed
}.

Definition withDiags (d : list Diagnostic) (S : Sema) : Sema :=
  mkSema d (CurContext S) (CurScope S) (CurrentInjectionContext S) (NextDecl S) (Store S)
    (Errs S).

Definition withCurContext (c : DeclContext) (S : Sema) : Sema :=
  mkSema (Diags S) c (CurScope S) (CurrentInjectionContext S) (NextDecl S) (Store S) (Errs S).

Definition withCurrentInjectionContext (c : list InjectionContext) (S : Sema) : Sema :=
  mkSema (Diags S) (CurContext S) (CurScope S) c (NextDecl S) (Store S) (Errs S).

Definition withNextDecl (n : DeclID) (S : Sema) : Sema :=
  mkSema (Diags S) (CurContext S) (CurScope S) (CurrentInjectionContext S) n (Store S) (Errs S).

Definition withStore (m : gmap DeclID DeclState) (S : Sema) : Sema :=
  mkSema (Diags S) (CurContext S) (CurScope S) (CurrentInjectionContext S) (NextDecl S) m
    (Errs S).

Definition withErrs (e : list Printed) (S : Sema) : Sema :=
  mkSema (Diags S) (CurContext S) (CurScope S) (CurrentInjectionContext S) (NextDecl S)
    (Store S) e.

(** Reading and writing the mutable attributes of a node. *)
Definition declState (S : Sema) (D : Decl) : DeclState :=
  default newDeclState (Store S !! declID D).

Definition updateDeclState (D : Decl) (f : DeclState -> DeclState) (S : Sema) : Sema :=
  withStore (<[declID D := f (declState S D)]> (Store S)) S.

Definition isInvalidDecl (S : Sema) (D : Decl) : bool := dsInvalid (declState S D).
Definition getAccess (S : Sema) (D : Decl) : AccessSpecifier := dsAccess (declState S D).
Definition decls (S : Sema) (DC : DeclContext) : list Decl := dsDecls (declState S DC).
Definition getInit (S : Sema) (D : Decl) : option Expr := dsInit (declState S D).
Definition hasInit (S : Sema) (D : Decl) : bool := bool_decide (is_Some (getInit S D)).
Definition getContent (S : Sema) (D : Decl) : option Decl := dsContent (declState S D).

(** ** The monad of semantic actions *)

Inductive Fault :=
| AssertionFailed          (* assert(...) *)
| BadCast                  (* cast<T>(p) with !isa<T>(p) *)
| NullDereference          (* p->... with p == nullptr *)
| Unreachable              (* llvm_unreachable(...) *)
| OutOfBounds              (* an iterator or index past the end *)
| OutOfFuel.               (* no fault of the program: a loop was still running
                              after the number of iterations the model allows *)

Inductive Outcome (A : Type) : Type :=
| Done (a : A) (S : Sema)
| Crash (f : Fault).

Arguments Done {A} a S.
Arguments Crash {A} f.

Definition M (A : Type) : Type := Sema -> Outcome A.

Definition ret {A} (a : A) : M A := fun S => Done a S.

Definition bind {A B} (c : M A) (k : A -> M B) : M B :=
  fun S => match c S with
           | Done a S' => k a S'
           | Crash f => Crash f
           end.

Definition crash {A} (f : Fault) : M A := fun _ => Crash f.

Definition gets {A} (f : Sema -> A) : M A := fun S => Done (f S) S.

Definition modify (f : Sema -> Sema) : M unit := fun S => Done tt (f S).

(** A service of the host compiler: total, and free to change the state. *)
Definition call {A} (f : Sema -> A * Sema) : M A :=
  fun S => let (a, S') := f S in Done a S'.

(** [assert(b)]. *)
Definition massert (b : bool) : M unit :=
  if b then ret tt else crash AssertionFailed.

(** Dereferencing a pointer that may be null. *)
Definition deref {A} (p : option A) : M A :=
  match p with Some a => ret a | None => crash NullDereference end.

(** [cast<T>(D)] for the class recognised by [isa]. *)
Definition cast (isa : Decl -> bool) (D : Decl) : M Decl :=
  if isa D then ret D else crash BadCast.

Declare Scope sema_scope.
Delimit Scope sema_scope with sema.
Notation "x <- c1 ;; c2" := (bind c1 (fun x => c2))
  (at level 100, c1 at next level, right associativity) : sema_scope.
Notation "c1 ;;; c2" := (bind c1 (fun _ => c2))
  (at level 100, right associativity) : sema_scope.
Local Open Scope sema_scope.

(** [Diag(Loc, ID) << args]. *)
Definition Diag (Loc : SourceLocation) (ID : DiagID) (args : list Z) : M unit :=
  modify (fun S => withDiags (Diags S ++ [mkDiag Loc ID args]) S).

Definition setInvalidDecl (D : Decl) (b : bool) : M unit :=
  modify (updateDeclState D (withInvalid b)).

Definition setAccess (D : Decl) (a : AccessSpecifier) : M unit :=
  modify (updateDeclState D (withAccess a)).

Definition addDecl (DC : DeclContext) (D : Decl) : M unit :=
  modify (fun S => updateDeclState DC (withDecls (decls S DC ++ [D])) S).

(** Allocation of a node in the ASTContext: the next free address. *)
Definition allocate : M DeclID :=
  fun S => Done (NextDecl S) (withNextDecl (Pos.succ (NextDecl S)) S).

(** ** The services of the host compiler

    None of these is defined in SemaInject.cpp; each is total and may change
    any part of the state.  The template-argument list every substitution
    receives is the empty [MultiLevelTemplateArgumentList] and is left out.
    [LocalInstantiationScope] and [Sema::InstantiatingTemplate] only keep
    the host's instantiation bookkeeping, which is not part of [Sema] here. *)

Inductive ExprResult := ExprError | ExprOK (E : option Expr).

Record Host := mkHost {
  SubstDecl : Decl -> DeclContext -> Sema -> option Decl * Sema;
  SubstDeclarationNameInfo :
    option IdentifierInfo -> SourceLocation -> Sema -> option IdentifierInfo * Sema;
  SubstType :
    QualType -> SourceLocation -> IdentifierInfo -> Sema -> option QualType * Sema;
  SubstInitializer : Expr -> Sema -> ExprResult * Sema;
  AddInitializerToDecl : Decl -> Expr -> Sema -> unit * Sema;
  ActOnUninitializedDecl : Decl -> Sema -> unit * Sema;
  PushExpressionEvaluationContext : Decl -> Sema -> unit * Sema;
  CheckVariableDeclarationType : Decl -> Sema -> unit * Sema;
  CheckConstexprFunctionDecl : Decl -> Sema -> unit * Sema;
  CheckPureMethod : Decl -> Sema -> unit * Sema;
  InstantiateFunctionDefinition : SourceLocation -> Decl -> Sema -> unit * Sema;
  updateDecl : DeclContext -> Decl -> Sema -> unit * Sema;
  EvaluateReflection : QualType -> SourceLocation -> Sema -> ReflectedConstruct * Sema;
  DecodeReflection : Z -> ReflectedConstruct;
  RequireCppxMetaNamespace : SourceLocation -> Sema -> option Decl * Sema;
  PushDeclContext : Scope -> DeclContext -> Sema -> unit * Sema;
  PopDeclContext : Sema -> unit * Sema;
  getCurFunctionDecl : Sema -> option Decl
}.

(** [DeclContext::lookup(N)]: the members of the context named [N]. *)
Definition lookup_name (S : Sema) (DC : DeclContext) (N : IdentifierInfo) : list Decl :=
  filter (fun D => declIdentifier D = Some N) (decls S DC).

(** [CXXRecordDecl::field_begin() .. field_end()]. *)
Definition fields (S : Sema) (Class : Decl) : list Decl :=
  filter (fun D => isa_FieldDecl D = true) (decls S Class).

(** [Decl::castToDeclContext]. *)
Definition castToDeclContext (D : Decl) : M DeclContext :=
  if isa_DeclContext D then ret D else crash Unreachable.

(** [DeclContext::Equals]: false for a null argument; every context is taken
    to be its own primary context. *)
Definition Equals (DC : DeclContext) (Other : option DeclContext) : bool :=
  match Other with Some DC' => sameDecl DC DC' | None => false end.

(** [APValue] accessors (each asserts the kind of the value). *)
Definition getInt (V : APValue) : M Z :=
  match V with APInt v => ret v | _ => crash AssertionFailed end.

Definition getStructNumFields (V : APValue) : M nat :=
  match V with APStruct _ Fs => ret (length Fs) | _ => crash AssertionFailed end.

Definition getStructField (V : APValue) (i : nat) : M APValue :=
  match V with
  | APStruct _ Fs => match Fs !! i with Some F => ret F | None => crash AssertionFailed end
  | _ => crash AssertionFailed
  end.

(** Modelled from the spec: [Sema::ContextRAII] is not part of the sources.
    Section 5 describes it as the scoped acquisition that saves the current
    semantic context pointer, switches it, and restores it on every exit
    path.  The constructor returns the saved context. *)
Definition ContextRAII_ctor (DC : DeclContext) : M DeclContext :=
  Saved <- gets CurContext;;
  modify (withCurContext DC);;;
  ret Saved.

Definition ContextRAII_dtor (Saved : DeclContext) : M unit :=
  modify (withCurContext Saved).

(** ** class InjectionContext (lines 29-89) *)

(** The constructor: the new context becomes current, on top of [Prev]. *)
Definition InjectionContext_ctor (Injectee : DeclContext) : M unit :=
  modify (fun S => withCurrentInjectionContext
                     (mkInjectionContext Injectee ∅ ∅ :: CurrentInjectionContext S) S).

(** The destructor: [SemaRef.CurrentInjectionContext = Prev]. *)
Definition InjectionContext_dtor (Prev : list InjectionContext) : M unit :=
  modify (withCurrentInjectionContext Prev).

(** The context object the methods below are called on. *)
Definition thisContext : M InjectionContext :=
  fun S => match CurrentInjectionContext S with
           | C :: _ => Done C S
           | [] => Crash NullDereference
           end.

Definition setThisContext (C : InjectionContext) : M unit :=
  modify (fun S => withCurrentInjectionContext (C :: tail (CurrentInjectionContext S)) S).

Definition AddDeclSubstitution (Orig New : Decl) : M unit :=
  C <- thisContext;;
  massert (bool_decide (DeclSubsts C !! declID Orig = None));;;
  setThisContext (mkInjectionContext (Injectee C) (<[declID Orig := New]> (DeclSubsts C))
                    (PlaceholderSubsts C)).

Definition AddPlaceholderSubstitution (Orig : Decl) (T : QualType) (V : APValue) : M unit :=
  massert (isa_VarDecl Orig);;;
  C <- thisContext;;
  massert (bool_decide (PlaceholderSubsts C !! declID Orig = None));;;
  setThisContext (mkInjectionContext (Injectee C) (DeclSubsts C)
                    (<[declID Orig := mkTypedValue T V]> (PlaceholderSubsts C))).

(** The loop of [AddPlaceholderSubstitutions]: [PlaceIter], [FieldIter] and
    the captures advance together. *)
Fixpoint AddPlaceholderSubstitutions_loop
    (PlaceIter FieldIter : list Decl) (Captures : list APValue) : M unit :=
  match Captures with
  | [] => ret tt
  | Val :: Captures' =>
      match PlaceIter, FieldIter with
      | Var :: PlaceIter', F :: FieldIter' =>
          AddPlaceholderSubstitution Var (declType F) Val;;;
          AddPlaceholderSubstitutions_loop PlaceIter' FieldIter' Captures'
      | _, _ => crash OutOfBounds
      end
  end.

Definition AddPlaceholderSubstitutions
    (Fragment : DeclContext) (Reflection : option Decl) (Captures : list APValue) : M unit :=
  massert (isa_CXXFragmentDecl Fragment);;;
  Class <- deref Reflection;;
  FieldIter <- gets (fun S => fields S Class);;
  PlaceIter <- gets (fun S => decls S Fragment);;
  AddPlaceholderSubstitutions_loop PlaceIter FieldIter Captures.

Definition GetDeclReplacement (C : InjectionContext) (D : Decl) : option Decl :=
  DeclSubsts C !! declID D.

Definition GetPlaceholderReplacement (C : InjectionContext) (E : Expr) : option Expr :=
  match E with
  | DeclRefExpr D _ _ Loc =>
      match PlaceholderSubsts C !! declID D with
      | Some TV =>
          Some (CXXConstantExpr (OpaqueValueExpr Loc (tvType TV) VK_RValue (Some E))
                  (tvValue TV))
      | None => None
      end
  | _ => None
  end.

(** ** Captures and placeholders (lines 102-215) *)

Definition isLocalVarDeclOrParm (D : Decl) : bool := LocalVarDeclOrParm (declBits D).

Definition FindCapturesInScope (SemaRef : Sema) (S : Scope) (Vars : list Decl) : list Decl :=
  fold_left
    (fun Vars D =>
       if isa_VarDecl D
       then if isLocalVarDeclOrParm D && hasInit SemaRef D then Vars ++ [D] else Vars
       else Vars)
    (scopeDecls S) Vars.

(** The [while] loop of [FindCaptures] entered with a non-null [S], followed
    by the final [if (S)]. *)
Fixpoint FindCaptures_walk
    (SemaRef : Sema) (S : Scope) (Fn : option Decl) (Vars : list Decl) : list Decl :=
  match S with
  | mkScope _ Entity Parent =>
      if negb (sameDeclOpt Entity Fn)
      then match Parent with
           | Some P => FindCaptures_walk SemaRef P Fn (FindCapturesInScope SemaRef S Vars)
           | None => FindCapturesInScope SemaRef S Vars
           end
      else FindCapturesInScope SemaRef S Vars
  end.

Definition FindCaptures (S : option Scope) (Fn : option Decl) (Vars : list Decl)
  : M (list Decl) :=
  massert (bool_decide (is_Some S));;;
  match S with
  | Some S0 => gets (fun SemaRef => FindCaptures_walk SemaRef S0 Fn Vars)
  | None => ret Vars
  end.

Definition ReferenceCaptures (Vars : list Decl) : list Expr :=
  map (fun D => ImplicitCastExpr (declType D) CK_LValueToRValue
                  (DeclRefExpr D (declType D) VK_LValue (declLocation D)) VK_RValue)
      Vars.

Definition GetVariableFromCapture (E : Expr) : M Decl :=
  match E with
  | ImplicitCastExpr _ _ Ref _ =>
      match Ref with
      | DeclRefExpr D _ _ _ => cast isa_VarDecl D
      | _ => crash BadCast
      end
  | _ => crash BadCast
  end.

(** [VarDecl::Create(Context, DC, Loc, Loc, Id, T, TSI, SC)]. *)
Definition VarDecl_Create (DC : DeclContext) (Loc : SourceLocation)
    (Id : option IdentifierInfo) (T : QualType) (SC : StorageClass) : M Decl :=
  a <- allocate;;
  let D := mkDecl a K_Var Id Loc T SC (Some DC) [] [] 0 noBits in
  modify (updateDeclState D (fun _ => newDeclState));;;
  ret D.

(** [CXXFragmentDecl::Create(Context, DC, Loc)]. *)
Definition CXXFragmentDecl_Create (DC : DeclContext) (Loc : SourceLocation) : M Decl :=
  a <- allocate;;
  let D := mkDecl a K_CXXFragment None Loc NullTy SC_None (Some DC) [] [] 0 noBits in
  modify (updateDeclState D (fun _ => newDeclState));;;
  ret D.

Definition CreatePlaceholder (Frag : Decl) (E : Expr) : M unit :=
  Var <- GetVariableFromCapture E;;
  let IdLoc := declLocation Var in
  let Id := declIdentifier Var in
  let T : QualType := DependentTy in
  Placeholder <- VarDecl_Create Frag IdLoc Id T SC_Static;;
  modify (updateDeclState Placeholder (withConstexpr true));;;
  modify (updateDeclState Placeholder (withImplicit true));;;
  modify (updateDeclState Placeholder (withInitStyle CInit));;;
  modify (updateDeclState Placeholder
            (withInit (Some (OpaqueValueExpr IdLoc T VK_RValue None))));;;
  modify (updateDeclState Placeholder (withReferenced true));;;
  modify (updateDeclState Placeholder (withUsed true));;;
  addDecl Frag Placeholder.

Fixpoint CreatePlaceholders (Frag : Decl) (Captures : list Expr) : M unit :=
  match Captures with
  | [] => ret tt
  | E :: Captures' => CreatePlaceholder Frag E;;; CreatePlaceholders Frag Captures'
  end.

Section Actions.

Context (host : Host).


Definition ActOnStartCXXFragment
    (S : option Scope) (Loc : SourceLocation) (Captures : list Expr) : M Decl :=
  DC <- gets CurContext;;
  Fragment <- CXXFragmentDecl_Create DC Loc;;
  CreatePlaceholders Fragment Captures;;;
  match S with
  | Some S0 => call (PushDeclContext host S0 Fragment)
  | None => ret tt
  end;;;
  ret Fragment.

Definition ActOnFinishCXXFragment
    (S : option Scope) (Fragment Content : option Decl) : M (option Decl) :=
  FD <- match Fragment with
        | Some F =>
            FD <- cast isa_CXXFragmentDecl F;;
            modify (updateDeclState FD (withContent Content));;;
            ret (Some FD)
        | None => ret None
        end;;
  match S with
  | Some _ => call (PopDeclContext host)
  | None => ret tt
  end;;;
  ret FD.

End Actions.

(** ** Recognising reflections of functions and parameters (lines 574-644) *)

Section Recognizers.

Context (host : Host).

Definition ReferencedReflectionClass (E : Expr) : M (option Decl) :=
  let ExprTy := getCanonicalType (getExprType E) in
  if negb (isRecordType ExprTy) then ret None else
  Class <- deref (getAsCXXRecordDecl ExprTy);;
  if negb (isa_ClassTemplateSpecializationDecl Class) then ret None else
  let Spec := Class in
  Owner <- deref (declContext Class);;
  Owner <- (if isInlineNamespace Owner then deref (declContext Owner) else ret Owner);;
  Meta <- call (RequireCppxMetaNamespace host (getExprLoc E));;
  if negb (Equals Owner Meta) then ret None else
  ret (Some Spec).

(** The result is [Some RefTy] when the C++ function returns true and has
    set [RefTy], and [None] when it returns false. *)
Definition ReferencesFunction (E : Expr) : M (option QualType) :=
  Spec <- ReferencedReflectionClass E;;
  match Spec with
  | None => ret None
  | Some Spec =>
      Name <- deref (declIdentifier Spec);;
      if String.eqb Name "function" then ret (Some (RecordTy Spec)) else
      if String.eqb Name "reflected_tuple" then
        First <- match declTemplateArgs Spec !! 0%nat with
                 | Some A => ret A
                 | None => crash OutOfBounds
                 end;;
        match First with
        | TA_Type T =>
            if negb (isRecordType T) then ret None else
            Class <- deref (getAsCXXRecordDecl T);;
            ClassName <- deref (declIdentifier Class);;
            if negb (String.eqb ClassName "parm_info") then ret None else
            DC <- deref (declContext Class);;
            if negb (isRecord DC) then ret None else
            Class <- cast isa_CXXRecordDecl DC;;
            OuterName <- deref (declIdentifier Class);;
            if negb (String.eqb OuterName "function") && negb (String.eqb OuterName "method")
            then ret None
            else ret (Some (RecordTy Class))
        | _ => ret None
        end
      else ret None
  end.

Definition ReferencesParameter (E : Expr) : M (option QualType) :=
  Spec <- ReferencedReflectionClass E;;
  match Spec with
  | None => ret None
  | Some Spec =>
      Name <- deref (declIdentifier Spec);;
      if String.eqb Name "parameter" then ret (Some (RecordTy Spec)) else ret None
  end.

End Recognizers.

(** ** The injection engine (lines 744-1105) *)

Definition DescribeInjectionTarget (DC : DeclContext) : M Z :=
  if isFunctionOrMethod DC then ret 0
  else if isRecord DC then ret 1
  else if isNamespace DC then ret 2
  else if isTranslationUnit DC then ret 3
  else crash Unreachable.

Definition InvalidInjection (POI : SourceLocation) (SK : Z) (DC : DeclContext) : M bool :=
  Target <- DescribeInjectionTarget DC;;
  Diag POI err_invalid_injection [SK; Target];;;
  ret false.

Fixpoint GetModifications (V : APValue) (T : QualType) (N : IdentifierInfo) {struct V}
  : M APValue :=
  Class <- match getAsCXXRecordDecl T with
           | Some Class => ret Class
           | None => crash AssertionFailed
           end;;
  Lookup <- gets (fun S => lookup_name S Class N);;
  massert (bool_decide (length Lookup <= 1)%nat);;;
  match Lookup with
  | [] =>
      match declBases Class with
      | B :: _ =>
          match V with
          | APStruct (V0 :: _) _ => GetModifications V0 B N
          | _ => crash AssertionFailed
          end
      | [] => crash OutOfBounds              (* Lookup.front() of an empty result *)
      end
  | F0 :: _ =>
      F <- cast isa_FieldDecl F0;;
      getStructField V (declFieldIndex F)
  end.

Definition CheckInjectionContexts (POI : SourceLocation) (Injection Injectee : DeclContext)
  : M bool :=
  if isRecord Injection && negb (isRecord Injectee) then
    InvalidInjection POI 1 Injectee;;; ret false
  else if isFileContext Injection && negb (isFileContext Injectee) then
    InvalidInjection POI 0 Injectee;;; ret false
  else ret true.

Definition hasLocalStorage (D : Decl) : bool := LocalStorage (declBits D).

Definition CheckInjectionKind (POI : SourceLocation) (Injection : Decl) (Injectee : DeclContext)
  : M bool :=
  if isa_VarDecl Injection && (hasLocalStorage Injection && negb (isFunctionOrMethod Injectee))
  then Diag POI err_injecting_local_into_invalid_scope [Z.b2z (isRecord Injectee)];;; ret false
  else ret true.

(** The modification traits as [CopyDeclaration] decodes them; [Access] and
    [Storage] are the values of the enumerations [AccessMod] and
    [StorageMod]. *)
Record Traits := mkTraits {
  Access : Z;
  Storage : Z;
  Constexpr : bool;
  Virtual : bool;
  Pure : bool
}.

Definition NoAccess : Z := 0.
Definition Public : Z := 1.
Definition Private : Z := 2.
Definition Protected : Z := 3.
Definition Default : Z := 4.

Definition NoStorage : Z := 0.
Definition Static : Z := 1.
Definition Automatic : Z := 2.
Definition ThreadLocal : Z := 3.

Definition toBool (v : Z) : bool := negb (v =? 0).

(** The cast [(AccessMod)v] or [(StorageMod)v] of the 64-bit value [v] that
    [getExtValue] returns (lines 980-981): the enumerations have no
    negative enumerator and no fixed underlying type, their values are
    those of [unsigned int], so the cast keeps [v] modulo [2 ^ 32]. *)
Definition castToEnum (v : Z) : Z := v mod 2 ^ 32.

(** Lines 966-987 of [CopyDeclaration]: the traits are unpacked from the
    field [mods] of the reflection value; the access and the storage are
    cast to their enumerations, and the assertions test the cast value. *)
Definition ReadTraits (ReflectionTy : QualType) (ReflectionVal : APValue) : M Traits :=
  Mods <- GetModifications ReflectionVal ReflectionTy "mods";;
  A <- (F <- getStructField Mods 1;; getInt F);;
  St <- (F <- getStructField Mods 2;; getInt F);;
  C <- (F <- getStructField Mods 3;; getInt F);;
  V <- (F <- getStructField Mods 4;; getInt F);;
  P <- (F <- getStructField Mods 5;; getInt F);;
  let Access := castToEnum A in
  let Storage := castToEnum St in
  massert (negb (Storage =? Automatic));;;
  massert (negb (Storage =? ThreadLocal));;;
  ret (mkTraits Access Storage (toBool C) (toBool V) (toBool P)).

(** [DeclContext::decls_begin()] and [Decl::getNextDeclInContext()], which
    [decl_iterator::operator++] follows: the first member of [DC], and the
    member that follows [D] in the declaration list of [DC] as it stands,
    null after the last member (and for a declaration that is no member). *)
Definition decls_begin (S : Sema) (DC : DeclContext) : option Decl := head (decls S DC).

Fixpoint nextDeclAfter (D : Decl) (Ds : list Decl) : option Decl :=
  match Ds with
  | [] => None
  | D0 :: Ds' => if sameDecl D0 D then head Ds' else nextDeclAfter D Ds'
  end.

Definition getNextDeclInContext (S : Sema) (DC : DeclContext) (D : Decl) : option Decl :=
  nextDeclAfter D (decls S DC).

Section Injection.

Context (host : Host).

(** One iteration of the loop of [InjectFragment] (lines 860-877), for the
    member [D]: the declarations produced so far, with the substitution of
    [D] appended unless [D] is an injected class name or its substitution
    fails. *)
Definition InjectFragment_member
    (InjecteeDC : DeclContext) (Injectee : Decl) (D : Decl) (Decls : list Decl)
  : M (list Decl) :=
  if isa_CXXRecordDecl D && isInjectedClassName D then ret Decls
  else
    R <- call (SubstDecl host D InjecteeDC);;
    match R with
    | None => setInvalidDecl Injectee true;;; ret Decls
    | Some R0 =>
        Invalid <- gets (fun S => isInvalidDecl S R0);;
        if Invalid then setInvalidDecl Injectee true;;; ret Decls
        else ret (Decls ++ [R0])
    end.

(** The loop of [InjectFragment] (line 859) from the position [Cur] of its
    iterator.  The iterator walks the declaration list of the injection as
    it stands: after the iteration for [D] it moves to the member that
    follows [D] then, so that a member added during the loop is visited as
    well.  [fuel] bounds the number of iterations. *)
Fixpoint InjectFragment_loop
    (fuel : nat) (InjecteeDC InjectionDC : DeclContext) (Injectee : Decl)
    (Cur : option Decl) (Decls : list Decl) {struct fuel} : M (list Decl) :=
  match Cur with
  | None => ret Decls
  | Some D =>
      match fuel with
      | O => crash OutOfFuel
      | Datatypes.S fuel' =>
          Decls' <- InjectFragment_member InjecteeDC Injectee D Decls;;
          Next <- gets (fun S => getNextDeclInContext S InjectionDC D);;
          InjectFragment_loop fuel' InjecteeDC InjectionDC Injectee Next Decls'
      end
  end.

(** [InjectFragment] returns its [bool] together with the final [Decls]. *)
Definition InjectFragment
    (fuel : nat) (POI : SourceLocation) (ReflectionTy : QualType) (ReflectionVal : APValue)
    (Injectee Injection : Decl) (Decls : list Decl) : M (bool * list Decl) :=
  massert (isa_CXXRecordDecl Injection || isa_NamespaceDecl Injection);;;
  InjecteeDC <- castToDeclContext Injectee;;
  InjectionDC <- castToDeclContext Injection;;
  ok <- CheckInjectionContexts POI InjectionDC InjecteeDC;;
  if negb ok then ret (false, Decls) else
  NumCaptures <- getStructNumFields ReflectionVal;;
  let Captures := match ReflectionVal with APStruct _ Fs => Fs | _ => [] end in
  let Class := getAsCXXRecordDecl ReflectionTy in
  FragmentDC <- deref (declContext Injection);;
  Fragment <- cast isa_CXXFragmentDecl FragmentDC;;
  Prev <- gets CurrentInjectionContext;;
  InjectionContext_ctor InjecteeDC;;;
  AddDeclSubstitution Injection Injectee;;;
  AddPlaceholderSubstitutions Fragment Class Captures;;;
  Switch <- ContextRAII_ctor InjecteeDC;;
  First <- gets (fun S => decls_begin S InjectionDC);;
  Decls' <- InjectFragment_loop fuel InjecteeDC InjectionDC Injectee First Decls;;
  ContextRAII_dtor Switch;;;
  InjectionContext_dtor Prev;;;
  ret (true, Decls').

Definition RewriteAsStaticMemberVariable (D : Decl) (Owner : DeclContext)
  : M (option Decl) :=
  DNI <- call (SubstDeclarationNameInfo host (declIdentifier D) (declLocation D));;
  match DNI with
  | None => ret None
  | Some Name =>
      TSI <- call (SubstType host (declType D) (declLocation D) Name);;
      match TSI with
      | None => ret None
      | Some T =>
          R <- VarDecl_Create Owner (declLocation D) (Some Name) T SC_Static;;
          A <- gets (fun S => getAccess S D);;
          setAccess R A;;;
          addDecl Owner R;;;
          OldInit <- gets (fun S => getInit S D);;
          match OldInit with
          | Some OldInit =>
              call (PushExpressionEvaluationContext host D);;;
              SwitchContext <- ContextRAII_ctor Owner;;
              Init <- call (SubstInitializer host OldInit);;
              ContextRAII_dtor SwitchContext;;;
              match Init with
              | ExprOK (Some Init) => call (AddInitializerToDecl host R Init)
              | ExprOK None => call (ActOnUninitializedDecl host R)
              | ExprError => setInvalidDecl R true
              end
          | None => ret tt
          end;;;
          ret (Some R)
      end
  end.

(** Lines 993-1003: the clone of the injection. *)
Definition CopyDeclaration_clone (Storage : Z) (Injection : Decl) (InjecteeDC : DeclContext)
  : M (option Decl) :=
  if isa_FieldDecl Injection && (Storage =? Static)
  then F <- cast isa_FieldDecl Injection;; RewriteAsStaticMemberVariable F InjecteeDC
  else call (SubstDecl host Injection InjecteeDC).

(** Lines 1012-1038: the access trait.  The result is false when the
    function returns false from here. *)
Definition CopyDeclaration_access
    (POI : SourceLocation) (Access : Z) (InjecteeDC : DeclContext) (Result : Decl) : M bool :=
  if toBool Access then
    DC <- deref (declContext Result);;
    if negb (isRecord DC)
    then Diag POI err_modifies_mem_spec_of_non_member [0];;; ret false
    else
      (if Access =? Public then setAccess Result AS_public
       else if Access =? Private then setAccess Result AS_private
       else if Access =? Protected then setAccess Result AS_protected
       else crash Unreachable);;;
      ret true
  else
    (if isa_CXXRecordDecl InjecteeDC
     then A <- gets (fun S => getAccess S Result);;
          match A with AS_none => setAccess Result AS_public | _ => ret tt end
     else ret tt);;;
    ret true.

(** Lines 1040-1057: the constexpr trait.  In the [FunctionDecl] branch the
    code calls [Var->setConstexpr(true)] on the null [Var] of the failed
    [dyn_cast<VarDecl>]. *)
Definition CopyDeclaration_constexpr
    (POI : SourceLocation) (Constexpr : bool) (Result : Decl) : M bool :=
  if Constexpr then
    if isa_VarDecl Result then
      modify (updateDeclState Result (withConstexpr true));;;
      call (CheckVariableDeclarationType host Result);;;
      ret true
    else if isa_CXXDestructorDecl Result then
      Diag POI err_declration_cannot_be_made_constexpr [];;; ret false
    else if isa_FunctionDecl Result then
      crash NullDereference
    else
      Diag POI err_virtual_non_function [];;; ret false
  else ret true.

(** Lines 1059-1080: the virtual and pure traits. *)
Definition CopyDeclaration_virtual
    (POI : SourceLocation) (Virtual Pure : bool) (Result : Decl) : M bool :=
  if Virtual then
    if negb (isa_CXXMethodDecl Result)
    then Diag POI err_virtual_non_function [];;; ret false
    else
      Method <- cast isa_CXXMethodDecl Result;;
      modify (updateDeclState Method (withVirtualAsWritten true));;;
      if Pure then
        let Err : Z :=
          if Defaulted (declBits Method) then 2
          else if Deleted (declBits Method) then 3
          else if Defined (declBits Method) then 1
          else 0 in
        if toBool Err
        then Diag POI err_cannot_make_pure_virtual [Err - 1];;; ret false
        else call (CheckPureMethod host Method);;; ret true
      else ret true
  else ret true.

(** Lines 1082-1104: the definition is instantiated if it is missing, the
    owner is updated and the clone is appended to [Decls]. *)
Definition CopyDeclaration_finish
    (POI : SourceLocation) (Injectee Injection Result : Decl) (Decls : list Decl)
  : M (bool * list Decl) :=
  (if isa_FunctionDecl Injection then
     NewFn <- cast isa_FunctionDecl Result;;
     if ThisDeclarationADefinition (declBits Injection)
        && negb (ThisDeclarationADefinition (declBits NewFn))
     then call (InstantiateFunctionDefinition host POI NewFn)
     else ret tt
   else if isa_CXXRecordDecl Injection then
     NewClass <- cast isa_CXXRecordDecl Result;;
     massert (if HasDefinition (declBits Injection)
              then HasDefinition (declBits NewClass) else true)
   else ret tt);;;
  DC <- deref (declContext Result);;
  call (updateDecl host DC Result);;;
  Invalid <- gets (fun S => isInvalidDecl S Injectee);;
  ret (negb Invalid, Decls ++ [Result]).

(** Lines 966-1104, inside the scope of the injection context. *)
Definition CopyDeclaration_body
    (POI : SourceLocation) (ReflectionTy : QualType) (ReflectionVal : APValue)
    (InjecteeDC : DeclContext) (Injectee Injection : Decl) (Decls : list Decl)
  : M (bool * list Decl) :=
  T <- ReadTraits ReflectionTy ReflectionVal;;
  Result <- CopyDeclaration_clone (Storage T) Injection InjecteeDC;;
  match Result with
  | None => setInvalidDecl Injectee true;;; ret (false, Decls)
  | Some Result =>
      Invalid <- gets (fun S => isInvalidDecl S Result);;
      if Invalid then setInvalidDecl Injectee true;;; ret (false, Decls) else
      ok <- CopyDeclaration_access POI (Access T) InjecteeDC Result;;
      if negb ok then ret (false, Decls) else
      ok <- CopyDeclaration_constexpr POI (Constexpr T) Result;;
      if negb ok then ret (false, Decls) else
      ok <- CopyDeclaration_virtual POI (Virtual T) (Pure T) Result;;
      if negb ok then ret (false, Decls) else
      CopyDeclaration_finish POI Injectee Injection Result Decls
  end.

(** [CopyDeclaration] returns its [bool] together with the final [Decls]. *)
Definition CopyDeclaration
    (POI : SourceLocation) (ReflectionTy : QualType) (ReflectionVal : APValue)
    (Injectee Injection : Decl) (Decls : list Decl) : M (bool * list Decl) :=
  InjectionDC <- deref (declContext Injection);;
  let InjectionOwner := InjectionDC in
  InjecteeDC <- castToDeclContext Injectee;;
  if isa_CXXRecordDecl Injection && isInjectedClassName Injection then ret (true, Decls) else
  ok <- CheckInjectionContexts POI InjectionDC InjecteeDC;;
  if negb ok then ret (false, Decls) else
  ok <- CheckInjectionKind POI Injection InjecteeDC;;
  if negb ok then ret (false, Decls) else
  Prev <- gets CurrentInjectionContext;;
  InjectionContext_ctor InjecteeDC;;;
  AddDeclSubstitution InjectionOwner Injectee;;;
  Switch <- ContextRAII_ctor InjecteeDC;;
  r <- CopyDeclaration_body POI ReflectionTy ReflectionVal InjecteeDC Injectee Injection Decls;;
  ContextRAII_dtor Switch;;;
  InjectionContext_dtor Prev;;;
  ret r.

End Injection.

(** ** Applying the effects of a constexpr block (lines 1107-1183) *)

Record InjectionInfo := mkInjectionInfo {
  ReflectionType : QualType;
  ReflectionValue : APValue;
  InjecteeType : QualType
}.

Inductive EvalEffect :=
| InjectionEffect (Injection : InjectionInfo)
| DiagnosticEffect (DiagnosticArg : APValue).

Section Effects.

Context (host : Host).

Definition GetDeclFromReflection (Ty : QualType) (Loc : SourceLocation) : M (option Decl) :=
  Construct <- call (EvaluateReflection host Ty Loc);;
  let Injection :=
    match getAsType Construct with
    | Some T => getAsCXXRecordDecl T
    | None => getAsDeclaration Construct
    end in
  match Injection with
  | None => Diag Loc err_reflection_not_a_decl [];;; ret None
  | Some D => ret (Some D)
  end.

Definition ApplyInjection (fuel : nat) (POI : SourceLocation) (II : InjectionInfo) : M bool :=
  Injection <- GetDeclFromReflection (ReflectionType II) POI;;
  Injectee <- (if negb (isNull (InjecteeType II))
               then GetDeclFromReflection (InjecteeType II) POI
               else DC <- gets CurContext;; ret (Some DC));;
  match Injectee with
  | None => ret false
  | Some Injectee =>
      let Ty := ReflectionType II in
      let Val := ReflectionValue II in
      Class <- deref (getAsCXXRecordDecl Ty);;
      Injection <- deref Injection;;
      r <- (if FragmentClass (declBits Class)
            then InjectFragment host fuel POI Ty Val Injectee Injection []
            else CopyDeclaration host POI Ty Val Injectee Injection []);;
      ret (fst r)
  end.

Definition PrintDecl (D : Decl) : M unit :=
  modify (fun S => withErrs (Errs S ++ [PrintedDecl D]) S).

Definition PrintType (T : QualType) : M unit :=
  match getAsCXXRecordDecl T with
  | Some TD => PrintDecl TD
  | None => modify (fun S => withErrs (Errs S ++ [PrintedType T]) S)
  end.

Definition ApplyDiagnostic (Loc : SourceLocation) (Arg : APValue) : M bool :=
  v <- getInt Arg;;
  let R := DecodeReflection host v in
  match getAsDeclaration R with
  | Some D => PrintDecl D
  | None =>
      match getAsType R with
      | Some T => PrintType T
      | None => crash Unreachable
      end
  end;;;
  ret true.

(** One iteration of the loop of [ApplyEffects]: the result of the effect. *)
Definition ApplyEffect (fuel : nat) (POI : SourceLocation) (Effect : EvalEffect) : M bool :=
  match Effect with
  | InjectionEffect II => ApplyInjection fuel POI II
  | DiagnosticEffect Arg => ApplyDiagnostic POI Arg
  end.

(** The loop of [ApplyEffects], [Ok] being the accumulator of [Ok &= ...];
    [fuel] is the bound every fragment injection runs its loop with. *)
Fixpoint ApplyEffects_loop
    (fuel : nat) (POI : SourceLocation) (Effects : list EvalEffect) (Ok : bool) : M bool :=
  match Effects with
  | [] => ret Ok
  | Effect :: Effects' =>
      r <- ApplyEffect fuel POI Effect;;
      ApplyEffects_loop fuel POI Effects' (Ok && r)
  end.

Definition ApplyEffects (fuel : nat) (POI : SourceLocation) (Effects : list EvalEffect)
  : M bool :=
  ApplyEffects_loop fuel POI Effects true.

End Effects.

(** ** A host that substitutes by cloning

    It is used to run the actions on concrete programs.  Substitution makes
    a copy of the declaration in the target context and registers it there;
    [rejects] names the declarations whose substitution fails, [reflects]
    is the table of reflection types, and [meta] is the namespace
    [RequireCppxMetaNamespace] finds. *)

Definition cloneInto (D : Decl) (DC : DeclContext) (a : DeclID) : Decl :=
  mkDecl a (declKind D) (declIdentifier D) (declLocation D) (declType D)
    (declStorageClass D) (Some DC) (declTemplateArgs D) (declBases D) (declFieldIndex D)
    (declBits D).

Definition cloneSubstDecl (rejects : Decl -> bool) (D : Decl) (DC : DeclContext) (S : Sema)
  : option Decl * Sema :=
  if rejects D then (None, S)
  else
    let R := cloneInto D DC (NextDecl S) in
    let S1 := withNextDecl (Pos.succ (NextDecl S)) S in
    let S2 := updateDeclState R (fun _ => withDecls [] (declState S D)) S1 in
    (Some R, updateDeclState DC (withDecls (decls S2 DC ++ [R])) S2).

Definition cloningHost
    (rejects : Decl -> bool) (reflects : QualType -> ReflectedConstruct) (meta : option Decl)
  : Host :=
  {| SubstDecl := cloneSubstDecl rejects;
     SubstDeclarationNameInfo := fun Name _ S => (Name, S);
     SubstType := fun T _ _ S => (Some T, S);
     SubstInitializer := fun E S => (ExprOK (Some E), S);
     AddInitializerToDecl := fun R E S => (tt, updateDeclState R (withInit (Some E)) S);
     ActOnUninitializedDecl := fun _ S => (tt, S);
     PushExpressionEvaluationContext := fun _ S => (tt, S);
     CheckVariableDeclarationType := fun _ S => (tt, S);
     CheckConstexprFunctionDecl := fun _ S => (tt, S);
     CheckPureMethod := fun _ S => (tt, S);
     InstantiateFunctionDefinition := fun _ _ S => (tt, S);
     updateDecl := fun _ _ S => (tt, S);
     EvaluateReflection := fun T _ S => (reflects T, S);
     DecodeReflection := fun _ => RC_Invalid;
     RequireCppxMetaNamespace := fun _ S => (meta, S);
     PushDeclContext := fun _ DC S => (tt, withCurContext DC S);
     PopDeclContext :=
       fun S => (tt, match declContext (CurContext S) with
                     | Some P => withCurContext P S
                     | None => S
                     end);
     getCurFunctionDecl :=
       fun S => if isa_FunctionDecl (CurContext S) then Some (CurContext S) else None |}.

(** *** Example programs *)

Local Open Scope positive_scope.

Definition simpleDecl (a : DeclID) (K : DeclKind) (Name : option IdentifierInfo)
    (T : QualType) (DC : option Decl) : Decl :=
  mkDecl a K Name 0%nat T SC_None DC [] [] 0%nat noBits.

Definition withBits (B : DeclBits) (D : Decl) : Decl :=
  mkDecl (declID D) (declKind D) (declIdentifier D) (declLocation D) (declType D)
    (declStorageClass D) (declContext D) (declTemplateArgs D) (declBases D)
    (declFieldIndex D) B.

Definition intTy : QualType := BuiltinTy "int".

Definition TU : Decl := simpleDecl 1 K_TranslationUnit None NullTy None.

(** [namespace cppx { namespace meta { ... } }] *)
Definition nsCppx : Decl := simpleDecl 2 K_Namespace (Some "cppx") NullTy (Some TU).
Definition nsMeta : Decl := simpleDecl 3 K_Namespace (Some "meta") NullTy (Some nsCppx).

(** [struct S { ... };], the class that receives injections, and
    [extern "C++" { ... }]. *)
Definition classS : Decl := simpleDecl 10 K_CXXRecord (Some "S") NullTy (Some TU).

(** [__fragment struct { int x; int y; }]: the fragment, its content (a
    class with its injected class name and two fields), and the class of
    the fragment expression, which has no captures. *)
Definition fragment : Decl := simpleDecl 20 K_CXXFragment None NullTy (Some TU).
Definition fragmentClass : Decl := simpleDecl 21 K_CXXRecord None NullTy (Some fragment).
Definition selfName : Decl :=
  withBits (mkBits true false false false false false false false false false)
    (simpleDecl 22 K_CXXRecord None NullTy (Some fragmentClass)).
Definition fieldX : Decl := simpleDecl 23 K_Field (Some "x") intTy (Some fragmentClass).
Definition fieldY : Decl := simpleDecl 24 K_Field (Some "y") intTy (Some fragmentClass).
Definition fragmentExprClass : Decl :=
  withBits (mkBits false false false false true false false false false false)
    (simpleDecl 30 K_CXXRecord None NullTy (Some TU)).
Definition fragmentValue : APValue := APStruct [APStruct [] []] [].
Definition reflectionOfS : Decl := simpleDecl 31 K_CXXRecord None NullTy (Some nsMeta).

(** [struct Src { int n = 7; void m() = default; };] and the class of a
    reflection of one of its members, whose field [mods] holds the traits. *)
Definition classSrc : Decl := simpleDecl 40 K_CXXRecord (Some "Src") NullTy (Some TU).
Definition fieldN : Decl := simpleDecl 41 K_Field (Some "n") intTy (Some classSrc).
Definition initN : Expr := OtherExpr intTy 7%nat.
Definition methodM : Decl :=
  withBits (mkBits false false false false false true false false false false)
    (simpleDecl 42 K_CXXMethod (Some "m") NullTy (Some classSrc)).
Definition memberReflection : Decl := simpleDecl 50 K_CXXRecord None NullTy (Some nsMeta).
Definition fieldMods : Decl := simpleDecl 51 K_Field (Some "mods") NullTy (Some memberReflection).
Definition memberValue (access storage cexpr virt pure : Z) : APValue :=
  APStruct [] [APStruct [] [APInt 0; APInt access; APInt storage; APInt cexpr; APInt virt;
                            APInt pure]].

(** [meta::reflected_tuple<U>] for an unnamed class [U]. *)
Definition unnamedClass : Decl := simpleDecl 60 K_CXXRecord None NullTy (Some TU).
Definition tupleOfUnnamed : Decl :=
  mkDecl 61 K_ClassTemplateSpecialization (Some "reflected_tuple") 0%nat NullTy SC_None
    (Some nsMeta) [TA_Type (RecordTy unnamedClass)] [] 0%nat noBits.

(** [void f(int p = 1) { int a = 0; int b; { int c = a; <here> } }] *)
Definition functionF : Decl := simpleDecl 70 K_Function (Some "f") NullTy (Some TU).
Definition localBits : DeclBits :=
  mkBits false false true true false false false false false false.
Definition localVar (a : DeclID) (K : DeclKind) (Name : IdentifierInfo) : Decl :=
  withBits localBits (simpleDecl a K (Some Name) intTy (Some functionF)).
Definition parmP : Decl := localVar 71 K_ParmVar "p".
Definition varA : Decl := localVar 72 K_Var "a".
Definition varB : Decl := localVar 73 K_Var "b".
Definition varC : Decl := localVar 74 K_Var "c".
Definition globalG : Decl := simpleDecl 75 K_Var (Some "g") intTy (Some TU).
Definition scopeTU : Scope := mkScope [globalG; functionF] (Some TU) None.
Definition scopeF : Scope := mkScope [parmP; varA; varB] (Some functionF) (Some scopeTU).
Definition scopeBlock : Scope := mkScope [varC] None (Some scopeF).

(** The state of semantic analysis for these programs. *)
Definition programSema : Sema :=
  let put D f S := updateDeclState D f S in
  put fragmentClass (withDecls [selfName; fieldX; fieldY])
    (put fragment (withDecls [fragmentClass])
      (put classSrc (withDecls [fieldN; methodM])
        (put fieldN (withInit (Some initN))
          (put memberReflection (withDecls [fieldMods])
            (put parmP (withInit (Some initN))
              (put varA (withInit (Some initN))
                (put varC (withInit (Some initN))
                  (put globalG (withInit (Some initN))
                    (mkSema [] TU None [] 100 ∅ []))))))))).

Definition reflectionTable (T : QualType) : ReflectedConstruct :=
  match T with
  | RecordTy C => if sameDecl C fragmentExprClass then RC_Declaration fragmentClass
                  else if sameDecl C reflectionOfS then RC_Type (RecordTy classS)
                  else RC_Invalid
  | _ => RC_Invalid
  end.

(** The host of the examples; substitution fails on the declarations
    [rejects] selects. *)
Definition exampleHost (rejects : Decl -> bool) : Host :=
  cloningHost rejects reflectionTable (Some nsMeta).

Local Close Scope positive_scope.

(** ** Reference definitions the theorems compare the actions with *)

(** A declaration a fragment may capture. *)
Definition capturable (SemaRef : Sema) (D : Decl) : bool :=
  isa_VarDecl D && (isLocalVarDeclOrParm D && hasInit SemaRef D).

(** The scope chain from [S] outwards, cut after the first scope whose
    entity is [Fn]. *)
Fixpoint scopesUpTo (S : Scope) (Fn : option Decl) : list Scope :=
  match S with
  | mkScope _ Entity Parent =>
      if sameDeclOpt Entity Fn then [S]
      else S :: match Parent with
                | Some P => scopesUpTo P Fn
                | None => []
                end
  end.

Definition capturesOf (SemaRef : Sema) (S : Scope) (Fn : option Decl) : list Decl :=
  flat_map (fun Sc => List.filter (capturable SemaRef) (scopeDecls Sc)) (scopesUpTo S Fn).

(** The selector [SK] of the mismatch diagnostic. *)
Definition mismatchSelector (Injection : DeclContext) (Injectee : DeclContext) : Z :=
  if isRecord Injection && negb (isRecord Injectee) then 1 else 0.

(** The two contexts are incompatible for [CheckInjectionContexts]. *)
Definition contextMismatch (Injection Injectee : DeclContext) : bool :=
  isRecord Injection && negb (isRecord Injectee)
  || isFileContext Injection && negb (isFileContext Injectee).

(** The variable a capture expression refers to, when it has the shape
    [ReferenceCaptures] builds. *)
Definition capturedVariable (E : Expr) : option Decl :=
  match E with
  | ImplicitCastExpr _ _ (DeclRefExpr D _ _ _) _ => if isa_VarDecl D then Some D else None
  | _ => None
  end.

(** The fragment [ActOnStartCXXFragment] creates in state [S]. *)
Definition fragmentAt (S : Sema) (Loc : SourceLocation) : Decl :=
  mkDecl (NextDecl S) K_CXXFragment None Loc NullTy SC_None (Some (CurContext S)) [] [] 0 noBits.

(** The placeholder of variable [V] in fragment [Frag], at address [a]. *)
Definition placeholderFor (Frag : Decl) (a : DeclID) (V : Decl) : Decl :=
  mkDecl a K_Var (declIdentifier V) (declLocation V) DependentTy SC_Static (Some Frag)
    [] [] 0 noBits.

Fixpoint placeholdersFor (Frag : Decl) (a : DeclID) (Vars : list Decl) : list Decl :=
  match Vars with
  | [] => []
  | V :: Vars' => placeholderFor Frag a V :: placeholdersFor Frag (Pos.succ a) Vars'
  end.

(** The state in which [CopyDeclaration] clones: the injection context
    with the substitution of the owner is current, and the injectee is the
    current context. *)
Definition injectionScope (Injectee InjectionOwner : Decl) (S : Sema) : Sema :=
  withCurContext Injectee
    (withCurrentInjectionContext
       (mkInjectionContext Injectee (<[declID InjectionOwner := Injectee]> ∅) ∅
          :: CurrentInjectionContext S) S).

(** The argument of the "cannot make pure virtual" diagnostic. *)
Definition pureConflictSelector (Method : Decl) : Z :=
  if Defaulted (declBits Method) then 1
  else if Deleted (declBits Method) then 2
  else 0.

(** [S'] has the diagnostics, the contexts and the member lists of [S]. *)
Definition sameMembers (S S' : Sema) : Prop :=
  Diags S' = Diags S /\ CurContext S' = CurContext S /\
  CurrentInjectionContext S' = CurrentInjectionContext S /\
  forall DC, decls S' DC = decls S DC.

(** The static member variable made from field [F] in [Owner]. *)
Definition staticMemberFor (F : Decl) (Owner : DeclContext) (a : DeclID)
    (Name : IdentifierInfo) (T : QualType) : Decl :=
  mkDecl a K_Var (Some Name) (declLocation F) T SC_Static (Some Owner) [] [] 0 noBits.


(** The argument of a [reflected_tuple] specialization is not
    [parm_info] nested in [function] or [method], all classes involved
    being named. *)
Inductive WrongNesting : TemplateArgument -> Prop :=
| WrongNesting_integral v : WrongNesting (TA_Integral v)
| WrongNesting_pack n : WrongNesting (TA_Pack n)
| WrongNesting_not_record T :
    isRecordType T = false -> WrongNesting (TA_Type T)
| WrongNesting_other_class T C Name :
    getAsCXXRecordDecl T = Some C -> declIdentifier C = Some Name ->
    Name <> "parm_info" -> WrongNesting (TA_Type T)
| WrongNesting_not_nested T C DC :
    getAsCXXRecordDecl T = Some C -> declIdentifier C = Some "parm_info" ->
    declContext C = Some DC -> isRecord DC = false -> WrongNesting (TA_Type T)
| WrongNesting_other_owner T C DC Name :
    getAsCXXRecordDecl T = Some C -> declIdentifier C = Some "parm_info" ->
    declContext C = Some DC -> isRecord DC = true -> declIdentifier DC = Some Name ->
    Name <> "function" -> Name <> "method" -> WrongNesting (TA_Type T).

(** A run of the effects one after the other: an injection effect is
    applied by [ApplyInjection] and a diagnostic effect by
    [ApplyDiagnostic], each from the state its predecessor left, and [rs]
    collects the result of each effect. *)
Inductive EffectRun (host : Host) (fuel : nat) (POI : SourceLocation)
  : list EvalEffect -> Sema -> list bool -> Sema -> Prop :=
| EffectRun_nil S : EffectRun host fuel POI [] S [] S
| EffectRun_injection II Effects S r S1 rs S' :
    ApplyInjection host fuel POI II S = Done r S1 ->
    EffectRun host fuel POI Effects S1 rs S' ->
    EffectRun host fuel POI (InjectionEffect II :: Effects) S (r :: rs) S'
| EffectRun_diagnostic Arg Effects S r S1 rs S' :
    ApplyDiagnostic host POI Arg S = Done r S1 ->
    EffectRun host fuel POI Effects S1 rs S' ->
    EffectRun host fuel POI (DiagnosticEffect Arg :: Effects) S (r :: rs) S'.

(** ** Reference definitions for the further properties *)

(** The replacement [GetPlaceholderReplacement] builds for a reference [E]
    to a placeholder of type [T] and value [V]. *)
Definition placeholderReplacement (E : Expr) (T : QualType) (V : APValue) : Expr :=
  CXXConstantExpr (OpaqueValueExpr (getExprLoc E) T VK_RValue (Some E)) V.

(** The attributes [CreatePlaceholder] gives a placeholder declared at
    [IdLoc]: constexpr, implicit, referenced, used, C-style initialization
    with an opaque value of dependent type. *)
Definition placeholderState (IdLoc : SourceLocation) : DeclState :=
  mkDeclState false AS_none true true true true false CInit
    (Some (OpaqueValueExpr IdLoc DependentTy VK_RValue None)) [] None.

(** The specialization [Spec] of the meta namespace reflects a function
    whose encoded value lives in the type [RefTy]: it is [function<X>]
    itself, or [reflected_tuple<F::parm_info>] for a class [F] named
    [function] or [method]. *)
Inductive ReflectsFunction (Spec : Decl) : QualType -> Prop :=
| ReflectsFunction_itself :
    declIdentifier Spec = Some "function" -> ReflectsFunction Spec (RecordTy Spec)
| ReflectsFunction_parameters T Args C Fn :
    declIdentifier Spec = Some "reflected_tuple" ->
    declTemplateArgs Spec = TA_Type T :: Args ->
    getAsCXXRecordDecl T = Some C ->
    declIdentifier C = Some "parm_info" ->
    declContext C = Some Fn ->
    isRecord Fn = true ->
    declIdentifier Fn = Some "function" \/ declIdentifier Fn = Some "method" ->
    ReflectsFunction Spec (RecordTy Fn).

(** The declaration [GetDeclFromReflection] reads off an evaluated
    reflection: the class of a reflected record type, or the reflected
    declaration. *)
Definition reflectedDecl (C : ReflectedConstruct) : option Decl :=
  match getAsType C with
  | Some T => getAsCXXRecordDecl T
  | None => getAsDeclaration C
  end.

(** What [ApplyDiagnostic] prints for a reflection, if it is valid. *)
Definition printedOf (R : ReflectedConstruct) : option Printed :=
  match R with
  | RC_Declaration D => Some (PrintedDecl D)
  | RC_Type T =>
      match getAsCXXRecordDecl T with
      | Some TD => Some (PrintedDecl TD)
      | None => Some (PrintedType T)
      end
  | RC_Invalid => None
  end.

(** The state [CopyDeclaration] returns in when its body has left [S2]:
    the contexts of the incoming state [S] are restored. *)
Definition leaveInjection (S S2 : Sema) : Sema :=
  withCurrentInjectionContext (CurrentInjectionContext S) (withCurContext (CurContext S) S2).

(** [CopyDeclaration] passes its checks and, in the scope of the injection,
    reads the traits [T] and runs the clone step, which gives [Result] and
    leaves the state [S1]. *)
Definition copyReaches (host : Host) (Ty : QualType) (Val : APValue)
    (Injectee Injection InjectionDC : Decl) (S : Sema)
    (T : Traits) (Result : option Decl) (S1 : Sema) : Prop :=
  declContext Injection = Some InjectionDC /\
  isa_DeclContext Injectee = true /\
  isa_CXXRecordDecl Injection && isInjectedClassName Injection = false /\
  contextMismatch InjectionDC Injectee = false /\
  isa_VarDecl Injection && (hasLocalStorage Injection && negb (isFunctionOrMethod Injectee))
    = false /\
  ReadTraits Ty Val (injectionScope Injectee InjectionDC S)
    = Done T (injectionScope Injectee InjectionDC S) /\
  CopyDeclaration_clone host (Storage T) Injection Injectee
    (injectionScope Injectee InjectionDC S) = Done Result S1.

(** The same, the clone being the valid declaration [R]. *)
Definition copyClones (host : Host) (Ty : QualType) (Val : APValue)
    (Injectee Injection InjectionDC : Decl) (S : Sema)
    (T : Traits) (R : Decl) (S1 : Sema) : Prop :=
  copyReaches host Ty Val Injectee Injection InjectionDC S T (Some R) S1 /\
  isInvalidDecl S1 R = false.

(** The state in which a clone [R] copied without an access trait has its
    access: public instead of none when the injectee is a class. *)
Definition defaultAccess (Injectee R : Decl) (S : Sema) : Sema :=
  if isa_CXXRecordDecl Injectee
  then match getAccess S R with
       | AS_none => updateDeclState R (withAccess AS_public) S
       | _ => S
       end
  else S.

(** [S] with the diagnostic [ID] and its arguments reported at [Loc]. *)
Definition reported (Loc : SourceLocation) (ID : DiagID) (args : list Z) (S : Sema) : Sema :=
  withDiags (Diags S ++ [mkDiag Loc ID args]) S.

(** The subobjects of the value [V] of type [T] that [GetModifications]
    may search, each with its class: [V] itself, then the subobject of the
    first base of its class, and so on. *)
Fixpoint firstBaseSubobjects (V : APValue) (T : QualType) {struct V}
  : list (APValue * Decl) :=
  match getAsCXXRecordDecl T with
  | None => []
  | Some Class =>
      (V, Class) ::
      match declBases Class, V with
      | B :: _, APStruct (V0 :: _) _ => firstBaseSubobjects V0 B
      | _, _ => []
      end
  end.

(** The value [M] is the field named [N] of the first of these subobjects
    whose class has a member of that name, and that member is the only one
    and a field. *)
Definition foundOnFirstBases (S : Sema) (N : IdentifierInfo) (V : APValue) (T : QualType)
    (M : APValue) : Prop :=
  exists Pre V' Class F Post,
    firstBaseSubobjects V T = Pre ++ (V', Class) :: Post /\
    Forall (fun p => lookup_name S (snd p) N = []) Pre /\
    lookup_name S Class N = [F] /\
    isa_FieldDecl F = true /\
    getStructField V' (declFieldIndex F) S = Done M S.

(** *** Further example programs *)

(** The injection context in which a member of [Src] is copied into [S],
    and the state in which it is current. *)
Definition copyContext : InjectionContext :=
  mkInjectionContext classS (<[declID classSrc := classS]> ∅) ∅.

Definition copySema : Sema := injectionScope classS classSrc programSema.

(** A fragment written in [f] that captures [c] and [a]: the fragment with
    its two placeholders and its content, and the class of the fragment
    expression with one field for each capture. *)
Definition capFragment : Decl :=
  simpleDecl 80%positive K_CXXFragment None NullTy (Some functionF).
Definition placeholderC : Decl :=
  simpleDecl 81%positive K_Var (Some "c") DependentTy (Some capFragment).
Definition placeholderA : Decl :=
  simpleDecl 82%positive K_Var (Some "a") DependentTy (Some capFragment).
Definition capContent : Decl :=
  simpleDecl 83%positive K_CXXRecord None NullTy (Some capFragment).
Definition capClass : Decl :=
  withBits (mkBits false false false false true false false false false false)
    (simpleDecl 84%positive K_CXXRecord None NullTy (Some functionF)).
Definition capFieldC : Decl :=
  simpleDecl 85%positive K_Field (Some "c") intTy (Some capClass).
Definition capFieldA : Decl :=
  mkDecl 86%positive K_Field (Some "a") 0%nat intTy SC_None (Some capClass) [] [] 1%nat noBits.

(** The state in which that fragment is injected into [S]. *)
Definition captureSema : Sema :=
  updateDeclState capFragment (withDecls [placeholderC; placeholderA; capContent])
    (updateDeclState capClass (withDecls [capFieldC; capFieldA])
       (withCurrentInjectionContext [mkInjectionContext classS ∅ ∅] programSema)).

(** Semantic analysis inside the block of [f]. *)
Definition blockSema : Sema :=
  mkSema (Diags programSema) functionF (Some scopeBlock) (CurrentInjectionContext programSema)
    (NextDecl programSema) (Store programSema) (Errs programSema).

(** [namespace meta { inline namespace v1 { ... function<int> ... } }], a
    specialization [function<int>] declared in [cppx] instead, and
    [meta::reflected_tuple<int>]. *)
Definition nsV1 : Decl :=
  withBits (mkBits false true false false false false false false false false)
    (simpleDecl 90%positive K_Namespace (Some "v1") NullTy (Some nsMeta)).
Definition functionOfInt : Decl :=
  mkDecl 91%positive K_ClassTemplateSpecialization (Some "function") 0%nat NullTy SC_None
    (Some nsV1) [TA_Type intTy] [] 0%nat noBits.
Definition foreignFunction : Decl :=
  mkDecl 92%positive K_ClassTemplateSpecialization (Some "function") 0%nat NullTy SC_None
    (Some nsCppx) [TA_Type intTy] [] 0%nat noBits.
Definition tupleOfInt : Decl :=
  mkDecl 93%positive K_ClassTemplateSpecialization (Some "reflected_tuple") 0%nat NullTy
    SC_None (Some nsMeta) [TA_Type intTy] [] 0%nat noBits.

(** The host of the examples with reflection values that decode: 1 is the
    class [S], 2 the type [int], 3 the type of [S]. *)
Definition printingHost : Host :=
  let h := exampleHost (fun _ => false) in
  {| SubstDecl := SubstDecl h;
     SubstDeclarationNameInfo := SubstDeclarationNameInfo h;
     SubstType := SubstType h;
     SubstInitializer := SubstInitializer h;
     AddInitializerToDecl := AddInitializerToDecl h;
     ActOnUninitializedDecl := ActOnUninitializedDecl h;
     PushExpressionEvaluationContext := PushExpressionEvaluationContext h;
     CheckVariableDeclarationType := CheckVariableDeclarationType h;
     CheckConstexprFunctionDecl := CheckConstexprFunctionDecl h;
     CheckPureMethod := CheckPureMethod h;
     InstantiateFunctionDefinition := InstantiateFunctionDefinition h;
     updateDecl := updateDecl h;
     EvaluateReflection := EvaluateReflection h;
     DecodeReflection :=
       fun v => if v =? 1 then RC_Declaration classS
                else if v =? 2 then RC_Type intTy
                else if v =? 3 then RC_Type (RecordTy classS)
                else RC_Invalid;
     RequireCppxMetaNamespace := RequireCppxMetaNamespace h;
     PushDeclContext := PushDeclContext h;
     PopDeclContext := PopDeclContext h;
     getCurFunctionDecl := getCurFunctionDecl h |}.



(** A reflection class derived from the class of member reflections: its
    [mods] are found in the base. *)
Definition derivedReflection : Decl :=
  mkDecl 94%positive K_CXXRecord None 0%nat NullTy SC_None (Some nsMeta) []
    [RecordTy memberReflection] 0%nat noBits.

(** ** Theorems *)

(** *** Stepping through the monad *)

Lemma bind_Done {A B} (c : M A) (k : A -> M B) S a S1 :
  c S = Done a S1 -> bind c k S = k a S1.
Proof. intros H. unfold bind. now rewrite H. Qed.

Lemma bind_Crash {A B} (c : M A) (k : A -> M B) S f :
  c S = Crash f -> bind c k S = Crash f.
Proof. intros H. unfold bind. now rewrite H. Qed.

Lemma bind_inv {A B} (c : M A) (k : A -> M B) S b S' :
  bind c k S = Done b S' -> exists a S1, c S = Done a S1 /\ k a S1 = Done b S'.
Proof.
  unfold bind. destruct (c S) as [a S1|f]; [|discriminate].
  intros H. now exists a, S1.
Qed.

(** *** Capture discovery *)





(** *** The effect applicator *)

Lemma ApplyEffects_loop_run host fuel POI Effects : forall Ok S ok S',
  ApplyEffects_loop host fuel POI Effects Ok S = Done ok S' <->
  exists rs, EffectRun host fuel POI Effects S rs S' /\ ok = Ok && forallb id rs.
Proof.
  induction Effects as [|Effect Effects IH]; intros Ok S ok S'; simpl.
  - unfold ret. split.
    + intros H. injection H as <- <-. exists []. split; [constructor|].
      simpl. now rewrite andb_true_r.
    + intros (rs & Hrun & ->). inversion Hrun; subst. simpl. now rewrite andb_true_r.
  - split.
    + intros H. apply bind_inv in H as (r & S1 & Hr & Hloop).
      apply IH in Hloop as (rs & Hrun & ->).
      exists (r :: rs). split.
      * destruct Effect as [II|Arg]; simpl in Hr; econstructor; eassumption.
      * simpl. unfold id at 1. now rewrite andb_assoc.
    + intros (rs & Hrun & ->).
      inversion Hrun as [|II ? ? r S1 rs' ? Hr Hrest|Arg ? ? r S1 rs' ? Hr Hrest]; subst.
      * change (ApplyEffect host fuel POI (InjectionEffect II) S = Done r S1) in Hr.
        rewrite (bind_Done _ _ _ _ _ Hr). apply IH. exists rs'. split; [exact Hrest|].
        simpl. unfold id at 1. now rewrite andb_assoc.
      * change (ApplyEffect host fuel POI (DiagnosticEffect Arg) S = Done r S1) in Hr.
        rewrite (bind_Done _ _ _ _ _ Hr). apply IH. exists rs'. split; [exact Hrest|].
        simpl. unfold id at 1. now rewrite andb_assoc.
Qed.

(** A run attempts every effect: it has one result per effect. *)
Lemma EffectRun_length host fuel POI Effects S rs S' :
  EffectRun host fuel POI Effects S rs S' -> length rs = length Effects.
Proof. induction 1; simpl; congruence. Qed.

(** C2.  [ApplyEffects] returns [ok] in state [S'] exactly when the effects
    have been applied one after the other in the order of the sequence,
    an injection effect by [ApplyInjection] and a diagnostic effect by
    [ApplyDiagnostic], each from the state its predecessor left and
    whatever the earlier results were; there is one result for each effect
    of the sequence, and [ok] is the conjunction of all of them. *)
Theorem ApplyEffects_conjunction_of_all_effects host fuel POI Effects S ok S' :
  ApplyEffects host fuel POI Effects S = Done ok S' <->
  exists rs,
    EffectRun host fuel POI Effects S rs S' /\
    length rs = length Effects /\
    ok = forallb id rs.
Proof.
  unfold ApplyEffects. rewrite ApplyEffects_loop_run. simpl. split.
  - intros (rs & Hrun & ->). exists rs. split; [exact Hrun|].
    split; [now apply EffectRun_length in Hrun|reflexivity].
  - intros (rs & Hrun & _ & ->). now exists rs.
Qed.

(** The applicator stops early only when an effect itself does not
    return. *)
Lemma ApplyEffects_loop_crash host fuel POI Effects : forall Ok S f,
  ApplyEffects_loop host fuel POI Effects Ok S = Crash f ->
  exists Done_ Effect Rest rs S1,
    Effects = Done_ ++ Effect :: Rest /\
    EffectRun host fuel POI Done_ S rs S1 /\
    ApplyEffect host fuel POI Effect S1 = Crash f.
Proof.
  induction Effects as [|Effect Effects IH]; intros Ok S f; simpl.
  - discriminate.
  - unfold bind. destruct (ApplyEffect host fuel POI Effect S) as [r S1|f'] eqn:Hr.
    + intros H. apply IH in H as (Ds & E & Rest & rs & S2 & -> & Hrun & Hc).
      exists (Effect :: Ds), E, Rest, (r :: rs), S2.
      repeat split; [|exact Hc].
      destruct Effect as [II|Arg]; simpl in Hr; econstructor; eassumption.
    + intros [= <-]. exists [], Effect, Effects, [], S.
      repeat split; [constructor | exact Hr].
Qed.

(** *** Finishing a fragment *)

(** C10.  With a scope and a null fragment, [ActOnFinishCXXFragment]
    returns null and leaves the state the host's [PopDeclContext] produces
    from the incoming state: the context is popped, and no fragment content
    is set before it. *)
Theorem ActOnFinishCXXFragment_null_fragment_pops host Sc Content S :
  ActOnFinishCXXFragment host (Some Sc) None Content S
  = Done None (snd (PopDeclContext host S)).
Proof.
  unfold ActOnFinishCXXFragment, bind, ret, call. simpl.
  now destruct (PopDeclContext host S).
Qed.

(** The context is popped for a fragment as well, after its content is set. *)
Lemma ActOnFinishCXXFragment_fragment_pops host Sc F Content S :
  isa_CXXFragmentDecl F = true ->
  ActOnFinishCXXFragment host (Some Sc) (Some F) Content S
  = Done (Some F) (snd (PopDeclContext host (updateDeclState F (withContent Content) S))).
Proof.
  intros HF. unfold ActOnFinishCXXFragment, cast, bind, ret, call, modify. rewrite HF. simpl.
  now destruct (PopDeclContext host _).
Qed.

(** *** Injected class names *)

Lemma bind_ext {A B} (c : M A) (k1 k2 : A -> M B) S :
  (forall a S1, k1 a S1 = k2 a S1) -> bind c k1 S = bind c k2 S.
Proof. intros H. unfold bind. destruct (c S); [apply H | reflexivity]. Qed.

(** The iteration for an injected class name does nothing. *)
Lemma InjectFragment_member_skips host InjecteeDC Injectee C Decls S :
  isa_CXXRecordDecl C = true ->
  isInjectedClassName C = true ->
  InjectFragment_member host InjecteeDC Injectee C Decls S = Done Decls S.
Proof. intros HC HI. unfold InjectFragment_member. now rewrite HC, HI. Qed.

(** C7.  An injected class name is neither copied nor injected: copying it
    into a declaration context succeeds at once, with the declarations
    produced and the whole state as they were; and when the loop of
    [InjectFragment] comes to it, nothing is substituted or appended and
    the state is untouched: the loop goes on from the member that follows
    it, with the declarations produced so far. *)
Theorem injected_class_name_is_never_injected
    host POI ReflectionTy ReflectionVal Injectee C Owner Decls S :
  isa_CXXRecordDecl C = true ->
  isInjectedClassName C = true ->
  declContext C = Some Owner ->
  isa_DeclContext Injectee = true ->
  CopyDeclaration host POI ReflectionTy ReflectionVal Injectee C Decls S
  = Done (true, Decls) S
  /\ forall fuel InjecteeDC InjectionDC Decls0 S0,
       InjectFragment_member host InjecteeDC Injectee C Decls0 S0 = Done Decls0 S0 /\
       InjectFragment_loop host (Datatypes.S fuel) InjecteeDC InjectionDC Injectee (Some C)
         Decls0 S0
       = InjectFragment_loop host fuel InjecteeDC InjectionDC Injectee
           (getNextDeclInContext S0 InjectionDC C) Decls0 S0.
Proof.
  intros HC HI HO HD. split.
  - unfold CopyDeclaration, castToDeclContext, deref, bind, ret.
    now rewrite HO, HD, HC, HI.
  - intros fuel InjecteeDC InjectionDC Decls0 S0.
    pose proof (InjectFragment_member_skips host InjecteeDC Injectee C Decls0 S0 HC HI) as HM.
    split; [exact HM|].
    simpl. now rewrite (bind_Done _ _ _ _ _ HM).
Qed.

(** *** The context check of fragment injection *)

Lemma DescribeInjectionTarget_total DC S :
  isFunctionOrMethod DC || isRecord DC || isNamespace DC || isTranslationUnit DC = true ->
  exists Target, DescribeInjectionTarget DC S = Done Target S /\ 0 <= Target <= 3.
Proof.
  intros H. unfold DescribeInjectionTarget.
  destruct (isFunctionOrMethod DC); [exists 0; split; [reflexivity|lia]|].
  destruct (isRecord DC); [exists 1; split; [reflexivity|lia]|].
  destruct (isNamespace DC); [exists 2; split; [reflexivity|lia]|].
  destruct (isTranslationUnit DC); [exists 3; split; [reflexivity|lia]|].
  discriminate.
Qed.

(** X29.  When the context of the injection is incompatible with
    an injectee that is a function or method, a record, a namespace or the
    translation unit, [InjectFragment] returns false with [Decls] as it
    was, and the state differs from the incoming one only by the mismatch
    diagnostic appended to the diagnostics: nothing of the injectee is
    touched and no declaration is created. *)
Theorem InjectFragment_context_mismatch
    host fuel POI ReflectionTy ReflectionVal Injectee Injection Decls S :
  isa_CXXRecordDecl Injection || isa_NamespaceDecl Injection = true ->
  contextMismatch Injection Injectee = true ->
  isFunctionOrMethod Injectee || isRecord Injectee || isNamespace Injectee
    || isTranslationUnit Injectee = true ->
  exists Target,
    DescribeInjectionTarget Injectee S = Done Target S /\
    InjectFragment host fuel POI ReflectionTy ReflectionVal Injectee Injection Decls S
    = Done (false, Decls)
        (withDiags (Diags S ++ [mkDiag POI err_invalid_injection
                                  [mismatchSelector Injection Injectee; Target]]) S).
Proof.
  intros HK HM HT.
  destruct (DescribeInjectionTarget_total Injectee S HT) as (Target & HTarget & _).
  exists Target. split; [exact HTarget|].
  assert (HD : isa_DeclContext Injectee = true).
  { unfold isFunctionOrMethod, isRecord, isNamespace, isTranslationUnit, isa_FunctionDecl,
      isa_CXXRecordDecl, isa_NamespaceDecl in HT. unfold isa_DeclContext.
    destruct (declKind Injectee); try reflexivity; discriminate. }
  assert (HIDC : isa_DeclContext Injection = true).
  { unfold isa_CXXRecordDecl, isa_NamespaceDecl in HK. unfold isa_DeclContext.
    destruct (declKind Injection); try reflexivity; discriminate. }
  unfold InjectFragment, massert, castToDeclContext. rewrite HK, HD, HIDC.
  unfold bind at 1 2 3. unfold ret at 1 2 3.
  unfold contextMismatch in HM. unfold mismatchSelector.
  unfold CheckInjectionContexts, InvalidInjection.
  destruct (isRecord Injection && negb (isRecord Injectee)) eqn:H1.
  - unfold bind, ret, Diag, modify. rewrite HTarget. reflexivity.
  - simpl in HM. rewrite HM.
    unfold bind, ret, Diag, modify. rewrite HTarget. reflexivity.
Qed.

(** *** Reading the store *)

Lemma declState_update_eq D D' f S :
  declID D = declID D' -> declState (updateDeclState D f S) D' = f (declState S D).
Proof.
  intros H. unfold declState, updateDeclState. simpl. rewrite <- H.
  now rewrite lookup_insert_eq.
Qed.

Lemma declState_update_ne D D' f S :
  declID D <> declID D' -> declState (updateDeclState D f S) D' = declState S D'.
Proof.
  intros H. unfold declState, updateDeclState. simpl.
  now rewrite lookup_insert_ne.
Qed.

Lemma decls_update_ne D DC f S :
  declID D <> declID DC -> decls (updateDeclState D f S) DC = decls S DC.
Proof. intros H. unfold decls. now rewrite declState_update_ne. Qed.

Lemma decls_update_eq D f S : decls (updateDeclState D f S) D = dsDecls (f (declState S D)).
Proof. unfold decls. now rewrite declState_update_eq. Qed.

(** *** Placeholders *)

Lemma GetVariableFromCapture_captured E V S :
  capturedVariable E = Some V -> GetVariableFromCapture E S = Done V S.
Proof.
  destruct E as [| T CK Sub VK | | |]; try discriminate. simpl.
  destruct Sub as [D T' VK' L | | | |]; try discriminate.
  unfold cast. destruct (isa_VarDecl D); [|discriminate].
  now intros [= ->].
Qed.


Lemma CreatePlaceholder_spec Frag E V S :
  capturedVariable E = Some V ->
  declID Frag <> NextDecl S ->
  exists S',
    CreatePlaceholder Frag E S = Done tt S' /\
    decls S' Frag = decls S Frag ++ [placeholderFor Frag (NextDecl S) V] /\
    NextDecl S' = Pos.succ (NextDecl S).
Proof.
  intros HE Hne. unfold CreatePlaceholder.
  rewrite (bind_Done _ _ _ _ _ (GetVariableFromCapture_captured _ _ _ HE)).
  unfold VarDecl_Create, allocate, addDecl, bind, modify, ret. simpl.
  eexists. split; [reflexivity|]. split; [|reflexivity].
  rewrite decls_update_eq. simpl.
  repeat (rewrite decls_update_ne; [|simpl; congruence]).
  reflexivity.
Qed.

Lemma CreatePlaceholders_spec Frag Captures Vars :
  Forall2 (fun E V => capturedVariable E = Some V) Captures Vars ->
  forall S, (declID Frag < NextDecl S)%positive ->
  exists S',
    CreatePlaceholders Frag Captures S = Done tt S' /\
    decls S' Frag = decls S Frag ++ placeholdersFor Frag (NextDecl S) Vars.
Proof.
  induction 1 as [|E V Captures Vars HE _ IH]; intros S Hlt; simpl.
  - exists S. split; [reflexivity|]. now rewrite app_nil_r.
  - destruct (CreatePlaceholder_spec Frag E V S HE) as (S1 & H1 & HD1 & HN1); [lia|].
    destruct (IH S1) as (S' & H' & HD'); [lia|].
    exists S'. split.
    + now rewrite (bind_Done _ _ _ _ _ H1).
    + rewrite HD', HD1, HN1. now rewrite <- app_assoc.
Qed.

Lemma placeholdersFor_shape Frag Vars : forall a,
  Forall2 (fun P V => isa_VarDecl P = true /\ declIdentifier P = declIdentifier V /\
                      declContext P = Some Frag /\ declType P = DependentTy)
          (placeholdersFor Frag a Vars) Vars.
Proof.
  induction Vars as [|V Vars IH]; intros a; simpl; constructor; [|apply IH].
  repeat split.
Qed.

Lemma ActOnStartCXXFragment_unfold host Sc Loc Captures S :
  ActOnStartCXXFragment host Sc Loc Captures S
  = (CreatePlaceholders (fragmentAt S Loc) Captures;;;
     match Sc with
     | Some S0 => call (PushDeclContext host S0 (fragmentAt S Loc))
     | None => ret tt
     end;;;
     ret (fragmentAt S Loc))
      (updateDeclState (fragmentAt S Loc) (fun _ => newDeclState)
         (withNextDecl (Pos.succ (NextDecl S)) S)).
Proof. reflexivity. Qed.

(** C4.  Started with a list of captures that refer to the variables
    [Vars], [ActOnStartCXXFragment] creates the fragment and gives it
    exactly one member per capture: the I-th member is a variable that has
    the identifier of the variable of the I-th capture and the fragment as
    its context.  The host's [PushDeclContext] then runs on that state when
    a scope is given. *)
Theorem ActOnStartCXXFragment_one_placeholder_per_capture
    host Sc Loc Captures Vars S :
  Forall2 (fun E V => capturedVariable E = Some V) Captures Vars ->
  exists S1,
    ActOnStartCXXFragment host Sc Loc Captures S
    = Done (fragmentAt S Loc)
        (match Sc with
         | Some S0 => snd (PushDeclContext host S0 (fragmentAt S Loc) S1)
         | None => S1
         end)
    /\ decls S1 (fragmentAt S Loc)
       = placeholdersFor (fragmentAt S Loc) (Pos.succ (NextDecl S)) Vars
    /\ length (decls S1 (fragmentAt S Loc)) = length Captures
    /\ Forall2 (fun P V => isa_VarDecl P = true /\ declIdentifier P = declIdentifier V /\
                           declContext P = Some (fragmentAt S Loc) /\
                           declType P = DependentTy)
               (decls S1 (fragmentAt S Loc)) Vars.
Proof.
  intros HC.
  set (Frag := fragmentAt S Loc).
  set (S0 := updateDeclState Frag (fun _ => newDeclState)
               (withNextDecl (Pos.succ (NextDecl S)) S)).
  destruct (CreatePlaceholders_spec Frag Captures Vars HC S0) as (S1 & H1 & HD1).
  { simpl. lia. }
  assert (HD : decls S1 Frag = placeholdersFor Frag (Pos.succ (NextDecl S)) Vars).
  { rewrite HD1. unfold S0 at 1. now rewrite decls_update_eq. }
  exists S1. split; [|split; [exact HD|split]].
  - rewrite ActOnStartCXXFragment_unfold. fold Frag. fold S0.
    rewrite (bind_Done _ _ _ _ _ H1).
    destruct Sc as [Sc0|]; unfold bind, call, ret; simpl.
    + now destruct (PushDeclContext host Sc0 Frag S1).
    + reflexivity.
  - rewrite HD. apply Forall2_length in HC.
    assert (Hlen : forall n, length (placeholdersFor Frag n Vars) = length Vars).
    { clear. induction Vars as [|V Vars IH]; intros n; simpl; [reflexivity|now rewrite IH]. }
    now rewrite Hlen.
  - rewrite HD. apply placeholdersFor_shape.
Qed.

(** *** Single-declaration copy: the pure trait *)

Lemma decls_update_keep D f S DC :
  (forall s, dsDecls (f s) = dsDecls s) -> decls (updateDeclState D f S) DC = decls S DC.
Proof.
  intros Hf. destruct (decide (declID D = declID DC)) as [e|n].
  - unfold decls. rewrite declState_update_eq by exact e. rewrite Hf.
    unfold declState. now rewrite e.
  - now apply decls_update_ne.
Qed.

Lemma sameMembers_refl S : sameMembers S S.
Proof. now repeat split. Qed.

Lemma sameMembers_update D f S :
  (forall s, dsDecls (f s) = dsDecls s) -> sameMembers S (updateDeclState D f S).
Proof. intros Hf. repeat split. intros DC. now apply decls_update_keep. Qed.

Lemma sameMembers_trans S1 S2 S3 :
  sameMembers S1 S2 -> sameMembers S2 S3 -> sameMembers S1 S3.
Proof.
  intros (A1 & A2 & A3 & A4) (B1 & B2 & B3 & B4).
  repeat split; congruence.
Qed.

Lemma method_is_not_other D :
  isa_CXXMethodDecl D = true ->
  isa_CXXRecordDecl D = false /\ isa_VarDecl D = false /\ isa_FieldDecl D = false /\
  isa_FunctionDecl D = true.
Proof.
  unfold isa_CXXMethodDecl, isa_CXXRecordDecl, isa_VarDecl, isa_FieldDecl, isa_FunctionDecl.
  destruct (declKind D); intros H; try discriminate; repeat split.
Qed.

(** The access trait goes through for a member of a record. *)
Lemma CopyDeclaration_access_member POI A InjecteeDC R RDC S :
  0 <= A <= 3 ->
  declContext R = Some RDC ->
  isRecord RDC = true ->
  exists S', CopyDeclaration_access POI A InjecteeDC R S = Done true S' /\ sameMembers S S'.
Proof.
  intros HA HR HRec. unfold CopyDeclaration_access.
  assert (Hcases : A = 0 \/ A = 1 \/ A = 2 \/ A = 3) by lia.
  destruct Hcases as [->|[->|[->| ->]]]; simpl.
  - destruct (isa_CXXRecordDecl InjecteeDC).
    + unfold bind, gets, ret. destruct (getAccess S R); simpl;
        eexists; (split; [reflexivity|]);
        first [apply sameMembers_refl | now apply sameMembers_update].
    + eexists. split; [reflexivity|apply sameMembers_refl].
  - unfold bind, deref, ret. rewrite HR, HRec. simpl.
    eexists. split; [reflexivity|now apply sameMembers_update].
  - unfold bind, deref, ret. rewrite HR, HRec. simpl.
    eexists. split; [reflexivity|now apply sameMembers_update].
  - unfold bind, deref, ret. rewrite HR, HRec. simpl.
    eexists. split; [reflexivity|now apply sameMembers_update].
Qed.

(** The pure trait on a method that is defaulted, deleted or defined. *)
Lemma CopyDeclaration_virtual_pure_conflict host POI R S :
  isa_CXXMethodDecl R = true ->
  Defaulted (declBits R) || Deleted (declBits R) || Defined (declBits R) = true ->
  exists S',
    CopyDeclaration_virtual host POI true true R S = Done false S' /\
    Diags S' = Diags S ++ [mkDiag POI err_cannot_make_pure_virtual [pureConflictSelector R]] /\
    CurContext S' = CurContext S /\
    CurrentInjectionContext S' = CurrentInjectionContext S /\
    forall DC, decls S' DC = decls S DC.
Proof.
  intros HM HC. unfold CopyDeclaration_virtual, cast, pureConflictSelector. rewrite HM. simpl.
  unfold bind, ret, modify, Diag.
  destruct (Defaulted (declBits R)); simpl.
  - eexists. split; [reflexivity|]. repeat split. intros DC. now apply decls_update_keep.
  - destruct (Deleted (declBits R)); simpl.
    + eexists. split; [reflexivity|]. repeat split. intros DC. now apply decls_update_keep.
    + simpl in HC. rewrite HC. simpl.
      eexists. split; [reflexivity|]. repeat split. intros DC. now apply decls_update_keep.
Qed.

Lemma CheckInjectionContexts_compatible POI Injection Injectee S :
  contextMismatch Injection Injectee = false ->
  CheckInjectionContexts POI Injection Injectee S = Done true S.
Proof.
  unfold contextMismatch, CheckInjectionContexts. intros H.
  apply orb_false_iff in H as [-> ->]. reflexivity.
Qed.

(** Past its checks, [CopyDeclaration] runs its body in the scope of the
    injection and restores the contexts. *)
Lemma CopyDeclaration_enters host POI Ty Val Injectee Injection InjectionDC Decls S :
  declContext Injection = Some InjectionDC ->
  isa_DeclContext Injectee = true ->
  isa_CXXRecordDecl Injection && isInjectedClassName Injection = false ->
  contextMismatch InjectionDC Injectee = false ->
  isa_VarDecl Injection = false ->
  CopyDeclaration host POI Ty Val Injectee Injection Decls S
  = match CopyDeclaration_body host POI Ty Val Injectee Injectee Injection Decls
            (injectionScope Injectee InjectionDC S) with
    | Done r S2 =>
        Done r (withCurrentInjectionContext (CurrentInjectionContext S)
                  (withCurContext (CurContext S) S2))
    | Crash f => Crash f
    end.
Proof.
  intros HDC HD HICN HM HV.
  unfold CopyDeclaration. rewrite HDC. unfold deref, castToDeclContext. rewrite HD, HICN.
  unfold bind at 1 2 3. unfold ret at 1 2.
  rewrite (CheckInjectionContexts_compatible _ _ _ _ HM). simpl negb. cbv iota.
  unfold CheckInjectionKind. rewrite HV. simpl andb. cbv iota.
  unfold bind at 1. unfold ret at 1. simpl negb. cbv iota.
  unfold InjectionContext_ctor, InjectionContext_dtor, AddDeclSubstitution, thisContext,
    setThisContext, ContextRAII_ctor, ContextRAII_dtor, massert, bind, gets, modify, ret.
  simpl. rewrite lookup_empty. rewrite (bool_decide_eq_true_2 _ eq_refl). simpl.
  change (withCurContext Injectee _) with (injectionScope Injectee InjectionDC S).
  destruct (CopyDeclaration_body host POI Ty Val Injectee Injectee Injection Decls
              (injectionScope Injectee InjectionDC S)) as [r S2|f]; reflexivity.
Qed.

(** C6 (amended).  When the traits ask for virtual and pure, not for
    constexpr, and carry an access value from none to protected, and the
    clone of the method is a valid member of a record that is defaulted,
    deleted or defined, [CopyDeclaration] returns false with [Decls] as it
    was; it appends the "cannot make pure virtual" diagnostic, whose
    argument is 1 for a defaulted, 2 for a deleted and 0 for a defined
    method, leaves every member list as the substitution left it, and
    restores the contexts. *)
Theorem CopyDeclaration_pure_conflict
    host POI Ty Val Injectee Injection InjectionDC Decls S T R RDC S1 :
  declContext Injection = Some InjectionDC ->
  isa_DeclContext Injectee = true ->
  isa_CXXMethodDecl Injection = true ->
  contextMismatch InjectionDC Injectee = false ->
  ReadTraits Ty Val (injectionScope Injectee InjectionDC S)
    = Done T (injectionScope Injectee InjectionDC S) ->
  Virtual T = true ->
  Pure T = true ->
  Constexpr T = false ->
  0 <= Access T <= 3 ->
  SubstDecl host Injection Injectee (injectionScope Injectee InjectionDC S) = (Some R, S1) ->
  isInvalidDecl S1 R = false ->
  isa_CXXMethodDecl R = true ->
  declContext R = Some RDC ->
  isRecord RDC = true ->
  Defaulted (declBits R) || Deleted (declBits R) || Defined (declBits R) = true ->
  exists S',
    CopyDeclaration host POI Ty Val Injectee Injection Decls S = Done (false, Decls) S' /\
    Diags S' = Diags S1 ++ [mkDiag POI err_cannot_make_pure_virtual [pureConflictSelector R]] /\
    (forall DC, decls S' DC = decls S1 DC) /\
    CurContext S' = CurContext S /\
    CurrentInjectionContext S' = CurrentInjectionContext S.
Proof.
  intros HDC HD HMeth HMis HT HVirt HPure HCex HAcc HSub HValid HRM HRDC HRec HConf.
  destruct (method_is_not_other _ HMeth) as (HnR & HnV & HnF & _).
  rewrite (CopyDeclaration_enters _ _ _ _ _ _ _ _ _ HDC HD) by
    (first [now rewrite HnR | assumption]).
  destruct (CopyDeclaration_access_member POI (Access T) Injectee R RDC S1 HAcc HRDC HRec)
    as (S2 & HA & HS12).
  destruct (CopyDeclaration_virtual_pure_conflict host POI R S2 HRM HConf)
    as (S3 & HV & HDiag & HCur & HCIC & HDecls).
  destruct HS12 as (HD12 & _ & _ & Hd12).
  assert (Hbody : CopyDeclaration_body host POI Ty Val Injectee Injectee Injection Decls
                    (injectionScope Injectee InjectionDC S) = Done (false, Decls) S3).
  { unfold CopyDeclaration_body. rewrite (bind_Done _ _ _ _ _ HT).
    unfold CopyDeclaration_clone. rewrite HnF. simpl andb. cbv iota.
    unfold bind at 1. unfold call. rewrite HSub.
    unfold bind at 1. unfold gets. rewrite HValid.
    rewrite (bind_Done _ _ _ _ _ HA). rewrite HCex, HVirt, HPure.
    cbv beta iota delta [negb ret bind CopyDeclaration_constexpr].
    now rewrite HV. }
  rewrite Hbody. eexists. split; [reflexivity|].
  repeat split; simpl.
  - now rewrite HDiag, HD12.
  - intros DC. unfold decls, declState in *. simpl. rewrite HDecls. apply Hd12.
Qed.

(** *** Single-declaration copy: the clone of a field made static *)


(** *** Fragment expansion past a failed member *)

(** A member whose substitution yields null invalidates the injectee, is
    not appended, and the loop goes on from the member that follows it. *)
Lemma InjectFragment_loop_null_member
    host fuel InjecteeDC InjectionDC Injectee D Decls S S1 :
  isa_CXXRecordDecl D && isInjectedClassName D = false ->
  SubstDecl host D InjecteeDC S = (None, S1) ->
  InjectFragment_loop host (Datatypes.S fuel) InjecteeDC InjectionDC Injectee (Some D) Decls S
  = InjectFragment_loop host fuel InjecteeDC InjectionDC Injectee
      (getNextDeclInContext (updateDeclState Injectee (withInvalid true) S1) InjectionDC D)
      Decls (updateDeclState Injectee (withInvalid true) S1).
Proof.
  intros HI HS.
  assert (HM : InjectFragment_member host InjecteeDC Injectee D Decls S
               = Done Decls (updateDeclState Injectee (withInvalid true) S1)).
  { unfold InjectFragment_member. rewrite HI.
    unfold bind, call, setInvalidDecl, modify, ret. now rewrite HS. }
  simpl. now rewrite (bind_Done _ _ _ _ _ HM).
Qed.

(** The same for a member whose substitution yields an invalid declaration. *)
Lemma InjectFragment_loop_invalid_member
    host fuel InjecteeDC InjectionDC Injectee D Decls S R S1 :
  isa_CXXRecordDecl D && isInjectedClassName D = false ->
  SubstDecl host D InjecteeDC S = (Some R, S1) ->
  isInvalidDecl S1 R = true ->
  InjectFragment_loop host (Datatypes.S fuel) InjecteeDC InjectionDC Injectee (Some D) Decls S
  = InjectFragment_loop host fuel InjecteeDC InjectionDC Injectee
      (getNextDeclInContext (updateDeclState Injectee (withInvalid true) S1) InjectionDC D)
      Decls (updateDeclState Injectee (withInvalid true) S1).
Proof.
  intros HI HS HR.
  assert (HM : InjectFragment_member host InjecteeDC Injectee D Decls S
               = Done Decls (updateDeclState Injectee (withInvalid true) S1)).
  { unfold InjectFragment_member. rewrite HI.
    unfold bind, call, gets, setInvalidDecl, modify, ret. rewrite HS. now rewrite HR. }
  simpl. now rewrite (bind_Done _ _ _ _ _ HM).
Qed.

(** A loop that has returned within [n] iterations returns the same with
    any larger bound. *)
Lemma InjectFragment_loop_fuel_mono host InjecteeDC InjectionDC Injectee :
  forall n Cur Decls S r S',
    InjectFragment_loop host n InjecteeDC InjectionDC Injectee Cur Decls S = Done r S' ->
    forall m, (n <= m)%nat ->
    InjectFragment_loop host m InjecteeDC InjectionDC Injectee Cur Decls S = Done r S'.
Proof.
  induction n as [|n IH]; intros Cur Decls S r S' H m Hm.
  - destruct Cur as [D|]; [discriminate H|]. now destruct m.
  - destruct Cur as [D|]; [|now destruct m].
    destruct m as [|m]; [lia|]. simpl in *.
    apply bind_inv in H as (Decls1 & S1 & H1 & H). rewrite (bind_Done _ _ _ _ _ H1).
    apply bind_inv in H as (Next & S2 & H2 & H). rewrite (bind_Done _ _ _ _ _ H2).
    apply IH; [exact H|lia].
Qed.

Lemma InjectFragment_fuel_mono host n m POI Ty Val Injectee Injection Decls S r S' :
  (n <= m)%nat ->
  InjectFragment host n POI Ty Val Injectee Injection Decls S = Done r S' ->
  InjectFragment host m POI Ty Val Injectee Injection Decls S = Done r S'.
Proof.
  intros Hnm H. unfold InjectFragment in *.
  apply bind_inv in H as (? & ? & H1 & H). rewrite (bind_Done _ _ _ _ _ H1). clear H1.
  apply bind_inv in H as (? & ? & H1 & H). rewrite (bind_Done _ _ _ _ _ H1). clear H1.
  apply bind_inv in H as (? & ? & H1 & H). rewrite (bind_Done _ _ _ _ _ H1). clear H1.
  apply bind_inv in H as (ok & ? & H1 & H). rewrite (bind_Done _ _ _ _ _ H1). clear H1.
  destruct ok; simpl in *; [|exact H].
  do 8 (apply bind_inv in H as (? & ? & H1 & H); rewrite (bind_Done _ _ _ _ _ H1); clear H1).
  apply bind_inv in H as (First & ? & H1 & H). rewrite (bind_Done _ _ _ _ _ H1). clear H1.
  apply bind_inv in H as (Decls1 & ? & H1 & H).
  rewrite (bind_Done _ _ _ _ _ (InjectFragment_loop_fuel_mono _ _ _ _ _ _ _ _ _ _ H1 m Hnm)).
  exact H.
Qed.

(** Whatever happens to the members, [InjectFragment] returns true once it
    has passed the context check: its last statement is [return true]. *)
Lemma InjectFragment_returns_true_after_check
    host fuel POI Ty Val Injectee Injection Decls S ok Decls' S' :
  contextMismatch Injection Injectee = false ->
  InjectFragment host fuel POI Ty Val Injectee Injection Decls S = Done (ok, Decls') S' ->
  ok = true.
Proof.
  intros HM H. unfold InjectFragment in H.
  repeat (apply bind_inv in H as (? & ? & ? & H)).
  match goal with
  | Hc : CheckInjectionContexts _ _ _ _ = _, H1 : castToDeclContext Injectee _ = _,
    H2 : castToDeclContext Injection _ = _ |- _ =>
      unfold castToDeclContext in H1, H2;
      destruct (isa_DeclContext Injectee); [|discriminate];
      destruct (isa_DeclContext Injection); [|discriminate];
      injection H1 as <- <-; injection H2 as <- <-;
      rewrite (CheckInjectionContexts_compatible _ _ _ _ HM) in Hc;
      injection Hc as <- <-
  end.
  simpl in H.
  repeat (apply bind_inv in H as (? & ? & ? & H)).
  unfold ret in H. now injection H as <- _ _.
Qed.

(** C1 (evaluation).  A fragment with the members [x] and [y] is injected
    into class [S] while the substitution of [x] fails: [x] is skipped, [y]
    is still injected and [S] is marked invalid, but [InjectFragment]
    returns true, with every bound that lets the loop visit the three
    members of the fragment. *)
Theorem InjectFragment_reports_success_after_failed_member :
  exists S',
    (forall fuel, (3 <= fuel)%nat ->
       InjectFragment (exampleHost (fun D => sameDecl D fieldX)) fuel 5%nat
         (RecordTy fragmentExprClass) fragmentValue classS fragmentClass [] programSema
       = Done (true, [cloneInto fieldY classS 100%positive]) S')
    /\ isInvalidDecl S' classS = true
    /\ decls S' classS = [cloneInto fieldY classS 100%positive].
Proof.
  eexists. split; [|split].
  - intros fuel Hf. apply (InjectFragment_fuel_mono _ 3%nat); [exact Hf|].
    vm_compute. reflexivity.
  - vm_compute. reflexivity.
  - vm_compute. reflexivity.
Qed.

(** *** The recognizers *)

Lemma getCanonicalType_idempotent T : getCanonicalType (getCanonicalType T) = getCanonicalType T.
Proof. induction T as [| | | |n U IH]; simpl; auto. Qed.

(** X26.  An expression whose type is not a record type is no match for
    either recognizer, and the state is untouched. *)
Lemma recognizers_reject_non_record host E S :
  isRecordType (getExprType E) = false ->
  ReferencesFunction host E S = Done None S /\ ReferencesParameter host E S = Done None S.
Proof.
  intros H.
  assert (HR : ReferencedReflectionClass host E S = Done None S).
  { unfold ReferencedReflectionClass, isRecordType.
    rewrite getCanonicalType_idempotent. unfold isRecordType in H. now rewrite H. }
  unfold ReferencesFunction, ReferencesParameter.
  now rewrite !(bind_Done _ _ _ _ _ HR).
Qed.

(** X27.  A specialization that is not declared in the meta namespace is
    no match for either recognizer; the state is the one
    [RequireCppxMetaNamespace] leaves. *)
Lemma recognizers_reject_foreign_specialization host E Spec Owner Meta S S1 :
  getAsCXXRecordDecl (getExprType E) = Some Spec ->
  isa_ClassTemplateSpecializationDecl Spec = true ->
  declContext Spec = Some Owner ->
  isInlineNamespace Owner = false ->
  RequireCppxMetaNamespace host (getExprLoc E) S = (Meta, S1) ->
  Equals Owner Meta = false ->
  ReferencesFunction host E S = Done None S1 /\ ReferencesParameter host E S = Done None S1.
Proof.
  intros HT HS HO HI HM HE.
  assert (HR : ReferencedReflectionClass host E S = Done None S1).
  { unfold ReferencedReflectionClass, isRecordType, getAsCXXRecordDecl in *.
    rewrite getCanonicalType_idempotent.
    destruct (getCanonicalType (getExprType E)); try discriminate.
    injection HT as ->. simpl. unfold bind, deref, ret, call.
    rewrite HS, HO, HI. simpl. rewrite HM, HE. reflexivity. }
  unfold ReferencesFunction, ReferencesParameter.
  now rewrite !(bind_Done _ _ _ _ _ HR).
Qed.

Lemma isRecordType_getAsCXXRecordDecl T C :
  getAsCXXRecordDecl T = Some C -> isRecordType T = true.
Proof.
  unfold getAsCXXRecordDecl, isRecordType.
  now destruct (getCanonicalType T).
Qed.

(** X28.  A [reflected_tuple] in the meta namespace whose argument is
    wrongly nested, with named classes, is no match for
    [ReferencesFunction]. *)
Lemma ReferencesFunction_rejects_wrong_nesting host E Spec A Args S S1 :
  ReferencedReflectionClass host E S = Done (Some Spec) S1 ->
  declIdentifier Spec = Some "reflected_tuple" ->
  declTemplateArgs Spec = A :: Args ->
  WrongNesting A ->
  ReferencesFunction host E S = Done None S1.
Proof.
  intros HR HN HA HW. unfold ReferencesFunction.
  rewrite (bind_Done _ _ _ _ _ HR). rewrite HN, HA. unfold bind, deref, ret. simpl.
  destruct HW as [v|n|T HT|T C Name HC HI Hne|T C DC HC HI HDC HRec
                  |T C DC Name HC HI HDC HRec HO Hf Hm]; try reflexivity.
  - now rewrite HT.
  - rewrite (isRecordType_getAsCXXRecordDecl _ _ HC), HC, HI. simpl.
    apply String.eqb_neq in Hne. now rewrite Hne.
  - rewrite (isRecordType_getAsCXXRecordDecl _ _ HC), HC, HI, HDC. simpl. now rewrite HRec.
  - rewrite (isRecordType_getAsCXXRecordDecl _ _ HC), HC, HI, HDC. simpl. rewrite HRec.
    unfold cast. unfold isRecord in HRec. rewrite HRec. unfold ret. rewrite HO.
    apply String.eqb_neq in Hf, Hm. now rewrite Hf, Hm.
Qed.

(** C8 (evaluation).  On an expression of type [meta::reflected_tuple<U>]
    with [U] an unnamed class, [ReferencesFunction] dereferences the null
    identifier of [U]; [ReferencesParameter] answers no match. *)
Theorem ReferencesFunction_unnamed_tuple_argument :
  ReferencesFunction (exampleHost (fun _ => false))
    (OtherExpr (RecordTy tupleOfUnnamed) 3%nat) programSema
  = Crash NullDereference
  /\ ReferencesParameter (exampleHost (fun _ => false))
       (OtherExpr (RecordTy tupleOfUnnamed) 3%nat) programSema
     = Done None programSema.
Proof. split; vm_compute; reflexivity. Qed.

(** *** The theorems at work on the example programs *)

(** Capturing inside the block of [f]: [c], then the parameter [p] and
    [a]; [b] has no initializer and the global [g] lies beyond [f]. *)
Example FindCaptures_in_block :
  FindCaptures (Some scopeBlock) (Some functionF) [] programSema
  = Done [varC; parmP; varA] programSema.
Proof. vm_compute. reflexivity. Qed.

(** Injecting the class fragment into namespace [meta] is refused. *)
Lemma InjectFragment_context_mismatch_example :
  exists Target,
    DescribeInjectionTarget nsMeta programSema = Done Target programSema /\
    InjectFragment (exampleHost (fun _ => false)) 3%nat 5%nat (RecordTy fragmentExprClass)
      fragmentValue nsMeta fragmentClass [] programSema
    = Done (false, [])
        (withDiags (Diags programSema ++
                      [mkDiag 5%nat err_invalid_injection
                         [mismatchSelector fragmentClass nsMeta; Target]]) programSema).
Proof.
  apply (InjectFragment_context_mismatch (exampleHost (fun _ => false)) 3%nat 5%nat
           (RecordTy fragmentExprClass) fragmentValue nsMeta fragmentClass [] programSema);
    vm_compute; reflexivity.
Defined.


(** A fragment started with the captures found in the block of [f]. *)
Lemma ActOnStartCXXFragment_example :
  exists S1,
    ActOnStartCXXFragment (exampleHost (fun _ => false)) (Some scopeBlock) 9%nat
      (ReferenceCaptures [varC; parmP; varA]) programSema
    = Done (fragmentAt programSema 9%nat)
        (snd (PushDeclContext (exampleHost (fun _ => false)) scopeBlock
                (fragmentAt programSema 9%nat) S1))
    /\ decls S1 (fragmentAt programSema 9%nat)
       = placeholdersFor (fragmentAt programSema 9%nat) (Pos.succ (NextDecl programSema))
           [varC; parmP; varA]
    /\ length (decls S1 (fragmentAt programSema 9%nat))
       = length (ReferenceCaptures [varC; parmP; varA])
    /\ Forall2 (fun P V => isa_VarDecl P = true /\ declIdentifier P = declIdentifier V /\
                           declContext P = Some (fragmentAt programSema 9%nat) /\
                           declType P = DependentTy)
               (decls S1 (fragmentAt programSema 9%nat)) [varC; parmP; varA].
Proof.
  apply (ActOnStartCXXFragment_one_placeholder_per_capture (exampleHost (fun _ => false))
           (Some scopeBlock) 9%nat (ReferenceCaptures [varC; parmP; varA])
           [varC; parmP; varA] programSema).
  repeat constructor.
Defined.

(** Starting a fragment and finishing it with a null fragment restores the
    current context. *)
Example start_then_finish_null_restores_context :
  match ActOnStartCXXFragment (exampleHost (fun _ => false)) (Some scopeBlock) 9%nat []
          programSema with
  | Done _ S1 =>
      match ActOnFinishCXXFragment (exampleHost (fun _ => false)) (Some scopeBlock) None None
              S1 with
      | Done FD S2 =>
          FD = None /\ sameDecl (CurContext S1) (fragmentAt programSema 9%nat) = true /\
          CurContext S2 = CurContext programSema /\ Store S2 = Store S1
      | Crash _ => False
      end
  | Crash _ => False
  end.
Proof. vm_compute. repeat split. Qed.

(** The whole copy of [n] with storage static: one new declaration, a static
    variable named [n] of type [int] in [S], initialized with the
    initializer of the field. *)
Example CopyDeclaration_static_field_run :
  match CopyDeclaration (exampleHost (fun _ => false)) 5%nat (RecordTy memberReflection)
          (memberValue 0 Static 0 0 0) classS fieldN [] programSema with
  | Done (ok, Ds) S' =>
      ok = true /\
      Ds = [staticMemberFor fieldN classS 100%positive "n" intTy] /\
      decls S' classS = Ds /\
      map (getInit S') Ds = [Some initN] /\
      map (getInit S') [fieldN] = [Some initN]
  | Crash _ => False
  end.
Proof. vm_compute. repeat split. Qed.

(** The defaulted method [m] copied into [S] as virtual and pure. *)
Lemma CopyDeclaration_pure_conflict_example :
  exists S',
    CopyDeclaration (exampleHost (fun _ => false)) 5%nat (RecordTy memberReflection)
      (memberValue 0 0 0 1 1) classS methodM [] programSema
    = Done (false, []) S' /\
    Diags S'
    = Diags (snd (cloneSubstDecl (fun _ => false) methodM classS
                    (injectionScope classS classSrc programSema)))
      ++ [mkDiag 5%nat err_cannot_make_pure_virtual
            [pureConflictSelector (cloneInto methodM classS 100%positive)]] /\
    (forall DC,
       decls S' DC
       = decls (snd (cloneSubstDecl (fun _ => false) methodM classS
                       (injectionScope classS classSrc programSema))) DC) /\
    CurContext S' = CurContext programSema /\
    CurrentInjectionContext S' = CurrentInjectionContext programSema.
Proof.
  apply (CopyDeclaration_pure_conflict (exampleHost (fun _ => false)) 5%nat
           (RecordTy memberReflection) (memberValue 0 0 0 1 1) classS methodM classSrc []
           programSema (mkTraits 0 0 false true true)
           (cloneInto methodM classS 100%positive) classS
           (snd (cloneSubstDecl (fun _ => false) methodM classS
                   (injectionScope classS classSrc programSema))));
    try (vm_compute; reflexivity).
  simpl. lia.
Defined.

(** C6 (as stated) fails twice.  With the pure trait alone (virtual not
    requested), copying the defaulted method [m] succeeds, produces the
    clone and emits no diagnostic.  And with virtual and pure, where the
    copy does fail with the diagnostic, the member list of the injectee has
    been changed all the same: the clone that the substitution added to
    [S] before the check is still there. *)
Lemma CopyDeclaration_pure_claim_fails :
  Defaulted (declBits methodM) = true
  /\ ReadTraits (RecordTy memberReflection) (memberValue 0 0 0 0 1) programSema
     = Done (mkTraits 0 0 false false true) programSema
  /\ (exists S',
        CopyDeclaration (exampleHost (fun _ => false)) 5%nat (RecordTy memberReflection)
          (memberValue 0 0 0 0 1) classS methodM [] programSema
        = Done (true, [cloneInto methodM classS 100%positive]) S'
        /\ Diags S' = [])
  /\ ReadTraits (RecordTy memberReflection) (memberValue 0 0 0 1 1) programSema
     = Done (mkTraits 0 0 false true true) programSema
  /\ (exists S',
        CopyDeclaration (exampleHost (fun _ => false)) 5%nat (RecordTy memberReflection)
          (memberValue 0 0 0 1 1) classS methodM [] programSema
        = Done (false, []) S'
        /\ Diags S' = [mkDiag 5%nat err_cannot_make_pure_virtual [1]]
        /\ decls programSema classS = []
        /\ decls S' classS = [cloneInto methodM classS 100%positive]).
Proof.
  split; [reflexivity|]. split; [vm_compute; reflexivity|].
  split; [eexists; split; vm_compute; reflexivity|].
  split; [vm_compute; reflexivity|].
  eexists. repeat apply conj; vm_compute; reflexivity.
Qed.

(** The injected class name of the fragment's class, copied into [S]. *)
Lemma injected_class_name_example :
  CopyDeclaration (exampleHost (fun _ => false)) 5%nat (RecordTy memberReflection)
    (memberValue 0 0 0 0 0) classS selfName [] programSema
  = Done (true, []) programSema
  /\ forall fuel InjecteeDC InjectionDC Decls0 S0,
       InjectFragment_member (exampleHost (fun _ => false)) InjecteeDC classS selfName
         Decls0 S0 = Done Decls0 S0 /\
       InjectFragment_loop (exampleHost (fun _ => false)) (Datatypes.S fuel) InjecteeDC
         InjectionDC classS (Some selfName) Decls0 S0
       = InjectFragment_loop (exampleHost (fun _ => false)) fuel InjecteeDC InjectionDC classS
           (getNextDeclInContext S0 InjectionDC selfName) Decls0 S0.
Proof.
  apply (injected_class_name_is_never_injected (exampleHost (fun _ => false)) 5%nat
           (RecordTy memberReflection) (memberValue 0 0 0 0 0) classS selfName fragmentClass
           [] programSema); vm_compute; reflexivity.
Defined.

(** Three effects, the second of which fails (the reflection of its target
    denotes no declaration): the third is still applied, so that [S]
    receives the members of the fragment twice, and the result is false. *)
Example ApplyEffects_three_effects :
  let intoS :=
    InjectionEffect (mkInjectionInfo (RecordTy fragmentExprClass) fragmentValue
                       (RecordTy reflectionOfS)) in
  let intoNothing :=
    InjectionEffect (mkInjectionInfo (RecordTy fragmentExprClass) fragmentValue intTy) in
  match ApplyEffects (exampleHost (fun _ => false)) 3%nat 5%nat [intoS; intoNothing; intoS]
          programSema with
  | Done ok S' =>
      ok = false /\
      map declIdentifier (decls S' classS) = [Some "x"; Some "y"; Some "x"; Some "y"] /\
      Diags S' = [mkDiag 5%nat err_reflection_not_a_decl []]
  | Crash _ => False
  end.
Proof. vm_compute. repeat split. Qed.

(** ** Further properties of the code *)

(** *** Inverting the steps of the monad *)

Lemma ret_inv {A} (a b : A) S S' : ret a S = Done b S' -> b = a /\ S' = S.
Proof. unfold ret. now intros [= <- <-]. Qed.

Lemma gets_inv {A} (f : Sema -> A) S a S' : gets f S = Done a S' -> a = f S /\ S' = S.
Proof. unfold gets. now intros [= <- <-]. Qed.

Lemma modify_inv f S u S' : modify f S = Done u S' -> S' = f S.
Proof. unfold modify. now intros [= <-]. Qed.

Lemma massert_inv b S u S' : massert b S = Done u S' -> b = true /\ S' = S.
Proof. unfold massert. destruct b; [|discriminate]. unfold ret. now intros [= <-]. Qed.

Lemma deref_inv {A} (p : option A) S a S' : deref p S = Done a S' -> p = Some a /\ S' = S.
Proof. unfold deref. destruct p; [|discriminate]. unfold ret. now intros [= <- <-]. Qed.

Lemma cast_inv isa D S D' S' : cast isa D S = Done D' S' -> isa D = true /\ D' = D /\ S' = S.
Proof. unfold cast. destruct (isa D); [|discriminate]. unfold ret. now intros [= <- <-]. Qed.

Lemma castToDeclContext_inv D S D' S' :
  castToDeclContext D S = Done D' S' -> isa_DeclContext D = true /\ D' = D /\ S' = S.
Proof.
  unfold castToDeclContext. destruct (isa_DeclContext D); [|discriminate].
  unfold ret. now intros [= <- <-].
Qed.

Lemma call_inv {A} (f : Sema -> A * Sema) S a S' : call f S = Done a S' -> f S = (a, S').
Proof. unfold call. destruct (f S). now intros [= <- <-]. Qed.

(** Decomposes the hypotheses that say a sequence of steps has returned. *)
Ltac minv :=
  repeat match goal with
  | H : bind _ _ _ = Done _ _ |- _ => apply bind_inv in H as (? & ? & ? & H)
  | H : ret _ _ = Done _ _ |- _ => apply ret_inv in H as [? ?]; subst
  | H : gets _ _ = Done _ _ |- _ => apply gets_inv in H as [? ?]; subst
  | H : modify _ _ = Done _ _ |- _ => apply modify_inv in H; subst
  | H : massert _ _ = Done _ _ |- _ => apply massert_inv in H as [? ?]; subst
  | H : deref _ _ = Done _ _ |- _ => apply deref_inv in H as [? ?]; subst
  | H : cast _ _ _ = Done _ _ |- _ => apply cast_inv in H as (? & ? & ?); subst
  | H : castToDeclContext _ _ = Done _ _ |- _ =>
      apply castToDeclContext_inv in H as (? & ? & ?); subst
  | H : call _ _ = Done _ _ |- _ => apply call_inv in H
  | H : crash _ _ = Done _ _ |- _ => discriminate H
  | H : Crash _ = Done _ _ |- _ => discriminate H
  end.

(** *** The injection context *)

(** X1.  Registering a substitution for a declaration that has none in the
    current injection context succeeds; afterwards [GetDeclReplacement]
    finds the replacement for that declaration and answers as before for
    every other one, and nothing else of the state has changed. *)
Theorem AddDeclSubstitution_then_GetDeclReplacement Orig New C Cs S :
  CurrentInjectionContext S = C :: Cs ->
  GetDeclReplacement C Orig = None ->
  exists C',
    AddDeclSubstitution Orig New S = Done tt (withCurrentInjectionContext (C' :: Cs) S) /\
    GetDeclReplacement C' Orig = Some New /\
    (forall D, declID D <> declID Orig -> GetDeclReplacement C' D = GetDeclReplacement C D) /\
    PlaceholderSubsts C' = PlaceholderSubsts C /\
    Injectee C' = Injectee C.
Proof.
  intros HC HN. unfold GetDeclReplacement in HN.
  exists (mkInjectionContext (Injectee C) (<[declID Orig := New]> (DeclSubsts C))
            (PlaceholderSubsts C)).
  split; [|split; [|split; [|split]]]; try reflexivity.
  - unfold AddDeclSubstitution, thisContext, setThisContext, massert, bind, modify, ret.
    rewrite HC, HN. rewrite (bool_decide_eq_true_2 _ eq_refl). simpl. now rewrite HC.
  - unfold GetDeclReplacement. simpl. apply lookup_insert_eq.
  - intros D HD. unfold GetDeclReplacement. simpl. now apply lookup_insert_ne.
Qed.

(** X2.  [AddDeclSubstitution] never overwrites: in a current injection
    context it returns exactly when the declaration has no substitution
    yet, and otherwise stops on its assertion. *)
Theorem AddDeclSubstitution_returns_iff_unmapped Orig New C Cs S :
  CurrentInjectionContext S = C :: Cs ->
  ((exists S', AddDeclSubstitution Orig New S = Done tt S') <->
   GetDeclReplacement C Orig = None)
  /\ (GetDeclReplacement C Orig <> None ->
      AddDeclSubstitution Orig New S = Crash AssertionFailed).
Proof.
  intros HC. unfold GetDeclReplacement.
  assert (Hrun : AddDeclSubstitution Orig New S
                 = if bool_decide (DeclSubsts C !! declID Orig = None)
                   then Done tt (withCurrentInjectionContext
                                   (mkInjectionContext (Injectee C)
                                      (<[declID Orig := New]> (DeclSubsts C))
                                      (PlaceholderSubsts C) :: Cs) S)
                   else Crash AssertionFailed).
  { unfold AddDeclSubstitution, thisContext, setThisContext, massert, bind, modify, ret.
    rewrite HC. destruct (bool_decide (DeclSubsts C !! declID Orig = None)); simpl;
      [now rewrite HC|reflexivity]. }
  rewrite Hrun. split; [split|].
  - intros [S' H]. destruct (bool_decide_reflect (DeclSubsts C !! declID Orig = None));
      [assumption|discriminate].
  - intros H. rewrite (bool_decide_eq_true_2 _ H). eexists. reflexivity.
  - intros H. now rewrite (bool_decide_eq_false_2 _ H).
Qed.

Lemma AddPlaceholderSubstitution_fresh P T V C Cs S :
  CurrentInjectionContext S = C :: Cs ->
  isa_VarDecl P = true ->
  PlaceholderSubsts C !! declID P = None ->
  AddPlaceholderSubstitution P T V S
  = Done tt (withCurrentInjectionContext
               (mkInjectionContext (Injectee C) (DeclSubsts C)
                  (<[declID P := mkTypedValue T V]> (PlaceholderSubsts C)) :: Cs) S).
Proof.
  intros HC HV HN.
  unfold AddPlaceholderSubstitution, thisContext, setThisContext, massert, bind, modify, ret.
  rewrite HV, HC, HN. rewrite (bool_decide_eq_true_2 _ eq_refl). simpl. now rewrite HC.
Qed.

Lemma AddPlaceholderSubstitutions_loop_pairs Cs Captures :
  forall PlaceIter FieldIter C S,
  CurrentInjectionContext S = C :: Cs ->
  (length Captures <= length PlaceIter)%nat ->
  (length Captures <= length FieldIter)%nat ->
  Forall (fun P => isa_VarDecl P = true) (take (length Captures) PlaceIter) ->
  NoDup (map declID (take (length Captures) PlaceIter)) ->
  Forall (fun P => PlaceholderSubsts C !! declID P = None)
         (take (length Captures) PlaceIter) ->
  exists C',
    AddPlaceholderSubstitutions_loop PlaceIter FieldIter Captures S
    = Done tt (withCurrentInjectionContext (C' :: Cs) S) /\
    Injectee C' = Injectee C /\
    DeclSubsts C' = DeclSubsts C /\
    (forall i P F V,
       PlaceIter !! i = Some P -> FieldIter !! i = Some F -> Captures !! i = Some V ->
       PlaceholderSubsts C' !! declID P = Some (mkTypedValue (declType F) V)) /\
    (forall k, k ∉ map declID (take (length Captures) PlaceIter) ->
       PlaceholderSubsts C' !! k = PlaceholderSubsts C !! k).
Proof.
  induction Captures as [|V Vs IH]; intros PlaceIter FieldIter C S HC HP HF HVar HND HNone.
  - exists C. rewrite <- HC.
    split; [destruct PlaceIter; simpl; unfold ret; now destruct S|].
    repeat split; try reflexivity.
    intros i P F V' _ _ H. discriminate H.
  - destruct PlaceIter as [|P Ps]; [simpl in HP; lia|].
    destruct FieldIter as [|F Fs]; [simpl in HF; lia|].
    simpl in HP, HF, HVar, HND, HNone.
    apply Forall_cons in HVar as [HVP HVar].
    apply NoDup_cons in HND as [HnotIn HND].
    apply Forall_cons in HNone as [HNP HNone].
    set (C1 := mkInjectionContext (Injectee C) (DeclSubsts C)
                 (<[declID P := mkTypedValue (declType F) V]> (PlaceholderSubsts C))).
    set (S1 := withCurrentInjectionContext (C1 :: Cs) S).
    destruct (IH Ps Fs C1 S1) as (C' & Hrun & HI & HD & Hpair & Hframe);
      try reflexivity; try lia; try assumption.
    { apply Forall_forall. intros Q HQ. simpl.
      rewrite lookup_insert_ne.
      - rewrite Forall_forall in HNone. now apply HNone.
      - intros Heq. apply HnotIn. rewrite Heq. now apply list_elem_of_fmap_2. }
    exists C'. split; [|split; [exact HI|split; [exact HD|split]]].
    + simpl. rewrite (bind_Done _ _ _ _ _
                        (AddPlaceholderSubstitution_fresh P (declType F) V C Cs S HC HVP HNP)).
      fold C1. fold S1. exact Hrun.
    + intros [|i] Q G W HQ HG HW; simpl in HQ, HG, HW.
      * injection HQ as <-. injection HG as <-. injection HW as <-.
        rewrite Hframe by exact HnotIn. simpl. apply lookup_insert_eq.
      * now apply (Hpair i).
    + intros k Hk. simpl in Hk. apply not_elem_of_cons in Hk as [Hk1 Hk2].
      rewrite Hframe by exact Hk2. simpl. now apply lookup_insert_ne.
Qed.

(** X3.  [AddPlaceholderSubstitutions] pairs by position: when the first
    members of the fragment are as many distinct variables as there are
    captures, none of them registered yet, and the reflection class has as
    many fields, it registers, for every I, the I-th of these members with
    the type of the I-th field and the I-th captured value; a reference to
    that member is then replaced by a constant expression of that type and
    value that wraps the reference.  The declaration substitutions are left
    as they were. *)
Theorem AddPlaceholderSubstitutions_pairs_by_position
    Fragment Class Captures C Cs S :
  CurrentInjectionContext S = C :: Cs ->
  isa_CXXFragmentDecl Fragment = true ->
  (length Captures <= length (decls S Fragment))%nat ->
  (length Captures <= length (fields S Class))%nat ->
  Forall (fun P => isa_VarDecl P = true) (take (length Captures) (decls S Fragment)) ->
  NoDup (map declID (take (length Captures) (decls S Fragment))) ->
  Forall (fun P => PlaceholderSubsts C !! declID P = None)
         (take (length Captures) (decls S Fragment)) ->
  exists C',
    AddPlaceholderSubstitutions Fragment (Some Class) Captures S
    = Done tt (withCurrentInjectionContext (C' :: Cs) S) /\
    DeclSubsts C' = DeclSubsts C /\
    forall i P F V,
      decls S Fragment !! i = Some P -> fields S Class !! i = Some F ->
      Captures !! i = Some V ->
      forall T VK Loc,
        GetPlaceholderReplacement C' (DeclRefExpr P T VK Loc)
        = Some (placeholderReplacement (DeclRefExpr P T VK Loc) (declType F) V).
Proof.
  intros HC HFrag HP HF HVar HND HNone.
  destruct (AddPlaceholderSubstitutions_loop_pairs Cs Captures (decls S Fragment)
              (fields S Class) C S HC HP HF HVar HND HNone)
    as (C' & Hrun & _ & HD & Hpair & _).
  exists C'. split; [|split; [exact HD|]].
  - unfold AddPlaceholderSubstitutions, massert, deref, bind, gets, ret. now rewrite HFrag.
  - intros i P F V HiP HiF HiV T VK Loc. unfold GetPlaceholderReplacement.
    now rewrite (Hpair i P F V HiP HiF HiV).
Qed.

Lemma AddPlaceholderSubstitutions_loop_short Captures :
  forall PlaceIter FieldIter S,
  (length PlaceIter < length Captures)%nat \/ (length FieldIter < length Captures)%nat ->
  exists f, AddPlaceholderSubstitutions_loop PlaceIter FieldIter Captures S = Crash f.
Proof.
  induction Captures as [|V Vs IH]; intros PlaceIter FieldIter S H.
  - simpl in H. lia.
  - destruct PlaceIter as [|P Ps]; [now exists OutOfBounds|].
    destruct FieldIter as [|F Fs]; [now exists OutOfBounds|].
    simpl AddPlaceholderSubstitutions_loop.
    unfold bind. destruct (AddPlaceholderSubstitution P (declType F) V S) as [[] S1|f].
    + apply IH. simpl in H. lia.
    + now exists f.
Qed.

(** X4.  A fragment with fewer members, or a reflection class with fewer
    fields, than there are captured values is never accepted:
    [AddPlaceholderSubstitutions] does not return. *)
Theorem AddPlaceholderSubstitutions_count_mismatch Fragment Class Captures S :
  (length (decls S Fragment) < length Captures)%nat
  \/ (length (fields S Class) < length Captures)%nat ->
  exists f, AddPlaceholderSubstitutions Fragment (Some Class) Captures S = Crash f.
Proof.
  intros H. unfold AddPlaceholderSubstitutions, massert, deref, bind, gets, ret.
  destruct (isa_CXXFragmentDecl Fragment); [|now exists AssertionFailed].
  now apply AddPlaceholderSubstitutions_loop_short.
Qed.

(** *** Placeholders and captures *)

Lemma CreatePlaceholder_attributes Frag E V S :
  capturedVariable E = Some V ->
  declID Frag <> NextDecl S ->
  exists S',
    CreatePlaceholder Frag E S = Done tt S' /\
    decls S' Frag = decls S Frag ++ [placeholderFor Frag (NextDecl S) V] /\
    NextDecl S' = Pos.succ (NextDecl S) /\
    declState S' (placeholderFor Frag (NextDecl S) V) = placeholderState (declLocation V) /\
    (forall D, declID D <> NextDecl S -> declID D <> declID Frag ->
               declState S' D = declState S D).
Proof.
  intros HE Hne. unfold CreatePlaceholder.
  rewrite (bind_Done _ _ _ _ _ (GetVariableFromCapture_captured _ _ _ HE)).
  unfold VarDecl_Create, allocate, addDecl, bind, modify, ret. simpl.
  eexists. split; [reflexivity|]. split; [|split; [reflexivity|split]].
  - rewrite decls_update_eq. simpl.
    repeat (rewrite decls_update_ne; [|simpl; congruence]).
    reflexivity.
  - rewrite declState_update_ne by (simpl; congruence).
    repeat (rewrite declState_update_eq by reflexivity). reflexivity.
  - intros D HD1 HD2.
    rewrite declState_update_ne by congruence.
    repeat (rewrite declState_update_ne by (simpl; congruence)).
    reflexivity.
Qed.

Lemma CreatePlaceholders_attributes Frag Captures Vars :
  Forall2 (fun E V => capturedVariable E = Some V) Captures Vars ->
  forall S, (declID Frag < NextDecl S)%positive ->
  exists S',
    CreatePlaceholders Frag Captures S = Done tt S' /\
    decls S' Frag = decls S Frag ++ placeholdersFor Frag (NextDecl S) Vars /\
    (NextDecl S <= NextDecl S')%positive /\
    Forall (fun P => declState S' P = placeholderState (declLocation P))
           (placeholdersFor Frag (NextDecl S) Vars) /\
    (forall D, (declID D < NextDecl S)%positive -> declID D <> declID Frag ->
               declState S' D = declState S D).
Proof.
  induction 1 as [|E V Captures Vars HE _ IH]; intros S Hlt; simpl.
  - exists S. split; [reflexivity|]. rewrite app_nil_r.
    repeat split; [lia|constructor].
  - destruct (CreatePlaceholder_attributes Frag E V S HE) as (S1 & H1 & HD1 & HN1 & HP1 & HF1);
      [lia|].
    destruct (IH S1) as (S' & H' & HD' & HN' & HP' & HF'); [lia|].
    exists S'. split; [now rewrite (bind_Done _ _ _ _ _ H1)|].
    split; [rewrite HD', HD1, HN1; now rewrite <- app_assoc|].
    split; [lia|]. split.
    + constructor.
      * rewrite HF'; [exact HP1| simpl; lia | simpl; lia].
      * rewrite <- HN1. exact HP'.
    + intros D HD HDF. rewrite HF' by (try lia; assumption). apply HF1; [lia|assumption].
Qed.

(** X5.  Every placeholder [ActOnStartCXXFragment] creates is a static
    variable that is constexpr, implicit, referenced and used, and is
    initialized in C style with an opaque value of dependent type at the
    location of the captured variable; the declarations that existed
    before keep all their attributes. *)
Theorem ActOnStartCXXFragment_placeholder_attributes host Sc Loc Captures Vars S :
  Forall2 (fun E V => capturedVariable E = Some V) Captures Vars ->
  exists S1,
    ActOnStartCXXFragment host Sc Loc Captures S
    = Done (fragmentAt S Loc)
        (match Sc with
         | Some S0 => snd (PushDeclContext host S0 (fragmentAt S Loc) S1)
         | None => S1
         end)
    /\ Forall (fun P => declState S1 P = placeholderState (declLocation P) /\
                        declStorageClass P = SC_Static)
              (decls S1 (fragmentAt S Loc))
    /\ Forall2 (fun P V => declLocation P = declLocation V) (decls S1 (fragmentAt S Loc)) Vars
    /\ forall D, (declID D < NextDecl S)%positive -> declState S1 D = declState S D.
Proof.
  intros HC.
  set (Frag := fragmentAt S Loc).
  set (S0 := updateDeclState Frag (fun _ => newDeclState)
               (withNextDecl (Pos.succ (NextDecl S)) S)).
  destruct (CreatePlaceholders_attributes Frag Captures Vars HC S0)
    as (S1 & H1 & HD1 & _ & HP1 & HF1).
  { simpl. lia. }
  assert (HD : decls S1 Frag = placeholdersFor Frag (Pos.succ (NextDecl S)) Vars).
  { rewrite HD1. unfold S0 at 1. now rewrite decls_update_eq. }
  exists S1. split; [|split; [|split]].
  - rewrite ActOnStartCXXFragment_unfold. fold Frag. fold S0.
    rewrite (bind_Done _ _ _ _ _ H1).
    destruct Sc as [Sc0|]; unfold bind, call, ret; simpl.
    + now destruct (PushDeclContext host Sc0 Frag S1).
    + reflexivity.
  - rewrite HD. simpl in HP1. revert HP1. generalize (Pos.succ (NextDecl S)) as n.
    clear. induction Vars as [|V Vars IH]; intros n HP; simpl; constructor.
    + apply Forall_cons in HP as [HP _]. now split.
    + apply Forall_cons in HP as [_ HP]. now apply IH.
  - rewrite HD. generalize (Pos.succ (NextDecl S)) as n.
    clear. induction Vars as [|V Vars IH]; intros n; simpl; constructor; [reflexivity|apply IH].
  - intros D HDlt. rewrite HF1.
    + unfold S0. rewrite declState_update_ne by (simpl; lia). reflexivity.
    + simpl. lia.
    + simpl. lia.
Qed.



(** *** The recognizers on what they do match *)

Lemma ReferencesFunction_inv host E S RefTy S1 :
  ReferencesFunction host E S = Done (Some RefTy) S1 ->
  exists Spec,
    ReferencedReflectionClass host E S = Done (Some Spec) S1 /\ ReflectsFunction Spec RefTy.
Proof.
  intros H. unfold ReferencesFunction in H.
  apply bind_inv in H as (o & S0 & HR & H).
  destruct o as [Spec|]; [|minv; discriminate].
  apply bind_inv in H as (Name & S0' & HN & H). apply deref_inv in HN as [HN ->].
  destruct (String.eqb Name "function") eqn:Hf.
  { apply String.eqb_eq in Hf. subst Name. apply ret_inv in H as [[= ->] ->].
    exists Spec. split; [exact HR|now constructor]. }
  destruct (String.eqb Name "reflected_tuple") eqn:Ht; [|minv; discriminate].
  apply String.eqb_eq in Ht. subst Name.
  apply bind_inv in H as (First & S0' & HA & H).
  destruct (declTemplateArgs Spec) as [|A Args] eqn:HArgs; [discriminate HA|].
  simpl in HA. apply ret_inv in HA as [-> ->].
  destruct A as [T| |]; try (minv; discriminate).
  destruct (isRecordType T); simpl in H; [|minv; discriminate].
  apply bind_inv in H as (C & S0' & HC & H). apply deref_inv in HC as [HC ->].
  apply bind_inv in H as (CN & S0' & HCN & H). apply deref_inv in HCN as [HCN ->].
  destruct (String.eqb CN "parm_info") eqn:Hp; simpl in H; [|minv; discriminate].
  apply String.eqb_eq in Hp. subst CN.
  apply bind_inv in H as (DC & S0' & HDC & H). apply deref_inv in HDC as [HDC ->].
  destruct (isRecord DC) eqn:HRec; simpl in H; [|minv; discriminate].
  apply bind_inv in H as (Fn & S0' & HFn & H). apply cast_inv in HFn as (_ & -> & ->).
  apply bind_inv in H as (ON & S0' & HON & H). apply deref_inv in HON as [HON ->].
  destruct (String.eqb ON "function") eqn:H1; simpl in H.
  - apply String.eqb_eq in H1. subst ON. apply ret_inv in H as [[= ->] ->].
    exists Spec. split; [exact HR|]. econstructor; eauto.
  - destruct (String.eqb ON "method") eqn:H2; simpl in H; [|minv; discriminate].
    apply String.eqb_eq in H2. subst ON. apply ret_inv in H as [[= ->] ->].
    exists Spec. split; [exact HR|]. econstructor; eauto.
Qed.

(** X7.  [ReferencesFunction] answers with the type [RefTy] exactly when
    the expression has the type of a specialization of the meta namespace
    that is [function<X>] ([RefTy] is that specialization) or
    [reflected_tuple<F::parm_info>] with [F] a class named [function] or
    [method] ([RefTy] is then [F], not the tuple). *)
Theorem ReferencesFunction_matches_iff host E S RefTy S1 :
  ReferencesFunction host E S = Done (Some RefTy) S1 <->
  exists Spec,
    ReferencedReflectionClass host E S = Done (Some Spec) S1 /\ ReflectsFunction Spec RefTy.
Proof.
  split; [apply ReferencesFunction_inv|].
  intros (Spec & HR & HF). unfold ReferencesFunction. rewrite (bind_Done _ _ _ _ _ HR).
  destruct HF as [HN|T Args C Fn HN HA HC HCN HDC HRec HFn].
  - rewrite HN. reflexivity.
  - rewrite HN, HA. unfold bind, deref, ret. simpl.
    rewrite (isRecordType_getAsCXXRecordDecl _ _ HC), HC, HCN, HDC. simpl. rewrite HRec.
    unfold cast. unfold isRecord in HRec. rewrite HRec. unfold ret.
    destruct HFn as [-> | ->]; reflexivity.
Qed.

(** X8.  The two recognizers never match the same expression: when one of
    them answers with a type, the other answers no match. *)
Theorem recognizers_are_exclusive host E S RefTy S1 :
  (ReferencesFunction host E S = Done (Some RefTy) S1 ->
   ReferencesParameter host E S = Done None S1)
  /\ (ReferencesParameter host E S = Done (Some RefTy) S1 ->
      ReferencesFunction host E S = Done None S1).
Proof.
  split.
  - intros H. apply ReferencesFunction_inv in H as (Spec & HR & HF).
    unfold ReferencesParameter. rewrite (bind_Done _ _ _ _ _ HR).
    destruct HF as [HN|T Args C Fn HN _ _ _ _ _ _]; now rewrite HN.
  - intros H. unfold ReferencesParameter in H.
    apply bind_inv in H as (o & S0 & HR & H).
    destruct o as [Spec|]; [|minv; discriminate].
    apply bind_inv in H as (Name & S0' & HN & H). apply deref_inv in HN as [HN ->].
    destruct (String.eqb Name "parameter") eqn:Hp; [|minv; discriminate].
    apply String.eqb_eq in Hp. subst Name. apply ret_inv in H as [_ ->].
    unfold ReferencesFunction. rewrite (bind_Done _ _ _ _ _ HR). now rewrite HN.
Qed.

(** X9.  [ReferencedReflectionClass] looks through exactly one inline
    namespace: a specialization declared in an inline namespace is
    recognized exactly when the parent of that namespace is the meta
    namespace. *)
Theorem ReferencedReflectionClass_strips_one_inline_namespace
    host E Spec Owner Parent Meta S S1 :
  getAsCXXRecordDecl (getExprType E) = Some Spec ->
  isa_ClassTemplateSpecializationDecl Spec = true ->
  declContext Spec = Some Owner ->
  isInlineNamespace Owner = true ->
  declContext Owner = Some Parent ->
  RequireCppxMetaNamespace host (getExprLoc E) S = (Meta, S1) ->
  ReferencedReflectionClass host E S
  = Done (if Equals Parent Meta then Some Spec else None) S1.
Proof.
  intros HT HS HO HI HP HM.
  unfold ReferencedReflectionClass, isRecordType, getAsCXXRecordDecl in *.
  rewrite getCanonicalType_idempotent.
  destruct (getCanonicalType (getExprType E)); try discriminate.
  injection HT as ->. simpl. unfold bind, deref, ret, call.
  rewrite HS, HO, HI. simpl. rewrite HP, HM. now destruct (Equals Parent Meta).
Qed.

(** *** The effect applicator, continued *)

Lemma EffectRun_app host fuel POI Es1 Es2 : forall S rs S',
  EffectRun host fuel POI (Es1 ++ Es2) S rs S' <->
  exists rs1 S1 rs2,
    EffectRun host fuel POI Es1 S rs1 S1 /\ EffectRun host fuel POI Es2 S1 rs2 S' /\
    rs = rs1 ++ rs2.
Proof.
  induction Es1 as [|E Es1 IH]; intros S rs S'; simpl.
  - split.
    + intros H. exists [], S, rs. repeat split; [constructor|exact H].
    + intros (rs1 & S1 & rs2 & H1 & H2 & ->). inversion H1; subst. exact H2.
  - split.
    + intros H.
      inversion H as [|II ? ? r S0 rs0 ? Hr Hrest|Arg ? ? r S0 rs0 ? Hr Hrest]; subst;
        apply IH in Hrest as (rs1 & S1 & rs2 & H1 & H2 & ->);
        exists (r :: rs1), S1, rs2; (repeat split; [econstructor; eassumption|exact H2]).
    + intros (rs1 & S1 & rs2 & H1 & H2 & ->).
      inversion H1 as [|II ? ? r S0 rs0 ? Hr Hrest|Arg ? ? r S0 rs0 ? Hr Hrest]; subst;
        simpl; (econstructor; [exact Hr|]); apply IH; now exists rs0, S1, rs2.
Qed.

(** X10.  Applying a sequence of effects is applying a first part and then,
    from the state it left, the rest: the result is the conjunction of the
    two results. *)
Theorem ApplyEffects_app host fuel POI Es1 Es2 S ok S' :
  ApplyEffects host fuel POI (Es1 ++ Es2) S = Done ok S' <->
  exists ok1 S1 ok2,
    ApplyEffects host fuel POI Es1 S = Done ok1 S1 /\
    ApplyEffects host fuel POI Es2 S1 = Done ok2 S' /\
    ok = ok1 && ok2.
Proof.
  unfold ApplyEffects. rewrite ApplyEffects_loop_run. split.
  - intros (rs & Hrun & ->). apply EffectRun_app in Hrun as (rs1 & S1 & rs2 & H1 & H2 & ->).
    exists (forallb id rs1), S1, (forallb id rs2). repeat split.
    + apply ApplyEffects_loop_run. now exists rs1.
    + apply ApplyEffects_loop_run. now exists rs2.
    + simpl. apply forallb_app.
  - intros (ok1 & S1 & ok2 & H1 & H2 & ->).
    apply ApplyEffects_loop_run in H1 as (rs1 & Hr1 & ->).
    apply ApplyEffects_loop_run in H2 as (rs2 & Hr2 & ->).
    exists (rs1 ++ rs2). split.
    + apply EffectRun_app. now exists rs1, S1, rs2.
    + simpl. symmetry. apply forallb_app.
Qed.

Lemma ApplyDiagnostic_prints host Loc v Item S :
  printedOf (DecodeReflection host v) = Some Item ->
  ApplyDiagnostic host Loc (APInt v) S = Done true (withErrs (Errs S ++ [Item]) S).
Proof.
  intros H. unfold ApplyDiagnostic, getInt, bind, ret. simpl.
  unfold printedOf in H.
  destruct (DecodeReflection host v) as [|D|T]; simpl; [discriminate| |].
  - now injection H as <-.
  - unfold PrintType, PrintDecl. destruct (getAsCXXRecordDecl T); now injection H as <-.
Qed.

(** X11.  A sequence of diagnostic effects whose arguments decode to valid
    reflections never fails: [ApplyEffects] returns true, and the state
    differs only by the printed entities, one per effect, appended in the
    order of the effects; no diagnostic is emitted and no declaration is
    touched. *)
Theorem ApplyEffects_diagnostics_only host fuel POI vs Items S :
  Forall2 (fun v Item => printedOf (DecodeReflection host v) = Some Item) vs Items ->
  ApplyEffects host fuel POI (map (fun v => DiagnosticEffect (APInt v)) vs) S
  = Done true (withErrs (Errs S ++ Items) S).
Proof.
  intros H. unfold ApplyEffects. revert S.
  induction H as [|v Item vs Items Hv _ IH]; intros S; simpl.
  - unfold ret. rewrite app_nil_r. now destruct S.
  - rewrite (bind_Done _ _ _ _ _ (ApplyDiagnostic_prints host POI v Item S Hv)).
    simpl. rewrite IH. simpl. now rewrite <- app_assoc.
Qed.

Lemma GetDeclFromReflection_run host Ty Loc S :
  GetDeclFromReflection host Ty Loc S
  = let (C, S1) := EvaluateReflection host Ty Loc S in
    match reflectedDecl C with
    | Some D => Done (Some D) S1
    | None => Done None (withDiags (Diags S1 ++ [mkDiag Loc err_reflection_not_a_decl []]) S1)
    end.
Proof.
  unfold GetDeclFromReflection, reflectedDecl, bind, call.
  destruct (EvaluateReflection host Ty Loc S) as [C S1].
  now destruct (match getAsType C with
                | Some T => getAsCXXRecordDecl T
                | None => getAsDeclaration C
                end).
Qed.

(** X12.  When an explicit injectee is given and its reflection denotes no
    declaration, [ApplyInjection] reports the "not a declaration"
    diagnostic and returns false without injecting anything: past the two
    reflection evaluations and that diagnostic the state is untouched. *)
Theorem ApplyInjection_unresolved_injectee host fuel POI II S Injection S1 C S2 :
  isNull (InjecteeType II) = false ->
  GetDeclFromReflection host (ReflectionType II) POI S = Done Injection S1 ->
  EvaluateReflection host (InjecteeType II) POI S1 = (C, S2) ->
  reflectedDecl C = None ->
  ApplyInjection host fuel POI II S
  = Done false (withDiags (Diags S2 ++ [mkDiag POI err_reflection_not_a_decl []]) S2).
Proof.
  intros HN HI HE HC. unfold ApplyInjection.
  rewrite (bind_Done _ _ _ _ _ HI). rewrite HN. simpl.
  unfold bind at 1. rewrite GetDeclFromReflection_run, HE, HC. reflexivity.
Qed.

(** X13.  [ApplyInjection] checks only the injectee: when the reflection to
    inject denotes no declaration and the injectee is the current context,
    the diagnostic is emitted but the injection goes on with the null
    declaration and ends in a null dereference. *)
Theorem ApplyInjection_unresolved_injection host fuel POI II S C S1 :
  isNull (InjecteeType II) = true ->
  EvaluateReflection host (ReflectionType II) POI S = (C, S1) ->
  reflectedDecl C = None ->
  ApplyInjection host fuel POI II S = Crash NullDereference.
Proof.
  intros HN HE HC. unfold ApplyInjection.
  unfold bind at 1. rewrite GetDeclFromReflection_run, HE, HC.
  rewrite HN. simpl. unfold bind, gets, ret, deref.
  destruct (getAsCXXRecordDecl (ReflectionType II)); reflexivity.
Qed.

(** *** The injection operations: contexts and produced declarations *)

Lemma DescribeInjectionTarget_inv DC S Target S' :
  DescribeInjectionTarget DC S = Done Target S' -> S' = S.
Proof.
  unfold DescribeInjectionTarget.
  destruct (isFunctionOrMethod DC); [intros H; now minv|].
  destruct (isRecord DC); [intros H; now minv|].
  destruct (isNamespace DC); [intros H; now minv|].
  destruct (isTranslationUnit DC); intros H; now minv.
Qed.

Lemma CheckInjectionContexts_inv POI Injection Injectee S ok S' :
  CheckInjectionContexts POI Injection Injectee S = Done ok S' ->
  ok = negb (contextMismatch Injection Injectee) /\
  (if ok then (S' = S)
   else (exists Target,
     DescribeInjectionTarget Injectee S = Done Target S /\
     S' = withDiags (Diags S ++ [mkDiag POI err_invalid_injection
                                   [mismatchSelector Injection Injectee; Target]]) S)).
Proof.
  unfold CheckInjectionContexts, contextMismatch, mismatchSelector, InvalidInjection, Diag.
  destruct (isRecord Injection && negb (isRecord Injectee)); simpl.
  - intros H. minv.
    match goal with Ht : DescribeInjectionTarget _ _ = _ |- _ =>
      pose proof (DescribeInjectionTarget_inv _ _ _ _ Ht); subst end.
    split; [reflexivity|]. eexists. split; [eassumption|reflexivity].
  - destruct (isFileContext Injection && negb (isFileContext Injectee)); simpl.
    + intros H. minv.
      match goal with Ht : DescribeInjectionTarget _ _ = _ |- _ =>
        pose proof (DescribeInjectionTarget_inv _ _ _ _ Ht); subst end.
      split; [reflexivity|]. eexists. split; [eassumption|reflexivity].
    + intros H. minv. now split.
Qed.

Lemma CheckInjectionContexts_contexts POI Injection Injectee S ok S' :
  CheckInjectionContexts POI Injection Injectee S = Done ok S' ->
  CurContext S' = CurContext S /\ CurrentInjectionContext S' = CurrentInjectionContext S /\
  Store S' = Store S.
Proof.
  intros H. apply CheckInjectionContexts_inv in H as [_ H].
  destruct ok; [now subst|]. destruct H as (Target & _ & ->). now repeat split.
Qed.

Lemma CopyDeclaration_body_inv
    host POI Ty Val InjecteeDC Injectee Injection Decls S ok Decls' S' :
  CopyDeclaration_body host POI Ty Val InjecteeDC Injectee Injection Decls S
  = Done (ok, Decls') S' ->
  (Decls' = Decls /\ ok = false)
  \/ (exists R, Decls' = Decls ++ [R] /\ ok = negb (isInvalidDecl S' Injectee)).
Proof.
  intros H. unfold CopyDeclaration_body in H.
  apply bind_inv in H as (T & S1 & _ & H).
  apply bind_inv in H as (Result & S2 & _ & H).
  destruct Result as [R|]; [|unfold setInvalidDecl in H; minv; left; split; congruence].
  apply bind_inv in H as (Invalid & S3 & _ & H).
  destruct Invalid; [unfold setInvalidDecl in H; minv; left; split; congruence|].
  apply bind_inv in H as (ok1 & S4 & _ & H).
  destruct ok1; simpl in H; [|minv; left; split; congruence].
  apply bind_inv in H as (ok2 & S5 & _ & H).
  destruct ok2; simpl in H; [|minv; left; split; congruence].
  apply bind_inv in H as (ok3 & S6 & _ & H).
  destruct ok3; simpl in H; [|minv; left; split; congruence].
  unfold CopyDeclaration_finish in H.
  apply bind_inv in H as (u & S7 & _ & H).
  apply bind_inv in H as (DC & S8 & _ & H).
  apply bind_inv in H as (u' & S9 & _ & H).
  apply bind_inv in H as (Invalid & S10 & HI & H).
  apply gets_inv in HI as [-> ->]. apply ret_inv in H as [[= -> ->] ->].
  right. exists R. now split.
Qed.

Lemma thisContext_inv S C S' :
  thisContext S = Done C S' -> S' = S /\ exists Cs, CurrentInjectionContext S = C :: Cs.
Proof.
  unfold thisContext. destruct (CurrentInjectionContext S) as [|C0 Cs]; [discriminate|].
  intros [= <- <-]. split; [reflexivity|now exists Cs].
Qed.

Lemma ContextRAII_ctor_inv DC S Saved S' :
  ContextRAII_ctor DC S = Done Saved S' -> Saved = CurContext S /\ S' = withCurContext DC S.
Proof. unfold ContextRAII_ctor. intros H. minv. now split. Qed.

(** The methods of the injection context touch nothing but the context
    that is current. *)
Lemma AddDeclSubstitution_frame Orig New S u S' :
  AddDeclSubstitution Orig New S = Done u S' ->
  CurContext S' = CurContext S /\ Store S' = Store S /\
  tail (CurrentInjectionContext S') = tail (CurrentInjectionContext S).
Proof.
  unfold AddDeclSubstitution, setThisContext. intros H.
  apply bind_inv in H as (C & S0 & H0 & H). apply thisContext_inv in H0 as [-> _].
  minv. now repeat split.
Qed.

Lemma AddPlaceholderSubstitution_frame Orig T V S u S' :
  AddPlaceholderSubstitution Orig T V S = Done u S' ->
  CurContext S' = CurContext S /\ Store S' = Store S /\
  tail (CurrentInjectionContext S') = tail (CurrentInjectionContext S).
Proof.
  unfold AddPlaceholderSubstitution, setThisContext. intros H.
  apply bind_inv in H as (u0 & S0 & H0 & H). apply massert_inv in H0 as [_ ->].
  apply bind_inv in H as (C & S0 & H0 & H). apply thisContext_inv in H0 as [-> _].
  minv. now repeat split.
Qed.

Lemma AddPlaceholderSubstitutions_loop_frame Captures : forall PlaceIter FieldIter S u S',
  AddPlaceholderSubstitutions_loop PlaceIter FieldIter Captures S = Done u S' ->
  CurContext S' = CurContext S /\ Store S' = Store S /\
  tail (CurrentInjectionContext S') = tail (CurrentInjectionContext S).
Proof.
  induction Captures as [|Val Captures IH]; intros PlaceIter FieldIter S u S' H.
  - destruct PlaceIter; simpl in H; apply ret_inv in H as [_ ->]; now repeat split.
  - destruct PlaceIter as [|P PlaceIter]; [discriminate H|].
    destruct FieldIter as [|F FieldIter]; [discriminate H|].
    simpl in H. apply bind_inv in H as (u0 & S0 & H0 & H).
    apply AddPlaceholderSubstitution_frame in H0 as (A1 & A2 & A3).
    apply IH in H as (B1 & B2 & B3). repeat split; congruence.
Qed.

Lemma AddPlaceholderSubstitutions_frame Fragment Class Captures S u S' :
  AddPlaceholderSubstitutions Fragment Class Captures S = Done u S' ->
  CurContext S' = CurContext S /\ Store S' = Store S /\
  tail (CurrentInjectionContext S') = tail (CurrentInjectionContext S).
Proof.
  unfold AddPlaceholderSubstitutions. intros H.
  apply bind_inv in H as (u0 & S0 & H0 & H). apply massert_inv in H0 as [_ ->].
  apply bind_inv in H as (C & S0 & H0 & H). apply deref_inv in H0 as [_ ->].
  apply bind_inv in H as (FieldIter & S0 & H0 & H). apply gets_inv in H0 as [_ ->].
  apply bind_inv in H as (PlaceIter & S0 & H0 & H). apply gets_inv in H0 as [_ ->].
  now apply AddPlaceholderSubstitutions_loop_frame in H.
Qed.

(** X14.  Whenever [CopyDeclaration] returns, the current context and the
    current injection context are the ones it was called with.  It has
    either left [Decls] alone, which with the result true happens only for
    an injected class name (and then the state is untouched), or appended
    exactly one declaration, and then the result says whether the injectee
    is valid on return. *)
Theorem CopyDeclaration_returns
    host POI Ty Val Injectee Injection Decls S ok Decls' S' :
  CopyDeclaration host POI Ty Val Injectee Injection Decls S = Done (ok, Decls') S' ->
  CurContext S' = CurContext S /\
  CurrentInjectionContext S' = CurrentInjectionContext S /\
  ((Decls' = Decls /\
    (ok = true ->
     isa_CXXRecordDecl Injection && isInjectedClassName Injection = true /\ S' = S))
   \/ (exists R, Decls' = Decls ++ [R] /\ ok = negb (isInvalidDecl S' Injectee))).
Proof.
  intros H. unfold CopyDeclaration in H.
  apply bind_inv in H as (InjectionDC & S0 & H0 & H). apply deref_inv in H0 as [HDC ->].
  apply bind_inv in H as (InjecteeDC & S0 & H0 & H).
  apply castToDeclContext_inv in H0 as (HD & -> & ->).
  destruct (isa_CXXRecordDecl Injection && isInjectedClassName Injection) eqn:HICN.
  { apply ret_inv in H as [[= -> ->] ->]. repeat split. left. now repeat split. }
  apply bind_inv in H as (ok1 & S1 & H1 & H).
  apply CheckInjectionContexts_contexts in H1 as (HC1 & HI1 & _).
  destruct ok1; simpl in H;
    [|apply ret_inv in H as [[= -> ->] ->]; repeat split; try assumption;
      left; split; [reflexivity|discriminate]].
  apply bind_inv in H as (ok2 & S2 & H2 & H).
  assert (HC2 : CurContext S2 = CurContext S1 /\
                CurrentInjectionContext S2 = CurrentInjectionContext S1).
  { clear H. unfold CheckInjectionKind, Diag in H2.
    destruct (isa_VarDecl Injection && _) in H2; minv; now split. }
  destruct HC2 as [HC2 HI2].
  destruct ok2; simpl in H;
    [|apply ret_inv in H as [[= -> ->] ->]; repeat split; try congruence;
      left; split; [reflexivity|discriminate]].
  apply bind_inv in H as (Prev & S3 & H3 & H). apply gets_inv in H3 as [-> ->].
  apply bind_inv in H as (u1 & S3 & H3 & H).
  unfold InjectionContext_ctor in H3. apply modify_inv in H3. subst S3.
  apply bind_inv in H as (u2 & S4 & H4 & H).
  apply AddDeclSubstitution_frame in H4 as (HC4 & _ & _). simpl in HC4.
  apply bind_inv in H as (Switch & S5 & H5 & H).
  apply ContextRAII_ctor_inv in H5 as [-> ->].
  apply bind_inv in H as ([ok' Ds'] & S6 & Hbody & H).
  apply bind_inv in H as (u3 & S7 & H7 & H).
  unfold ContextRAII_dtor in H7. apply modify_inv in H7. subst S7.
  apply bind_inv in H as (u4 & S8 & H8 & H).
  unfold InjectionContext_dtor in H8. apply modify_inv in H8. subst S8.
  apply ret_inv in H as [[= -> ->] ->].
  simpl. split; [congruence|]. split; [congruence|].
  apply CopyDeclaration_body_inv in Hbody as [[-> ->]|(R & -> & ->)].
  - left. split; [reflexivity|discriminate].
  - right. exists R. split; reflexivity.
Qed.

Lemma InjectFragment_member_appends host InjecteeDC Injectee D Decls S Decls' S' :
  InjectFragment_member host InjecteeDC Injectee D Decls S = Done Decls' S' ->
  Decls' = Decls \/ exists R, Decls' = Decls ++ [R].
Proof.
  unfold InjectFragment_member, setInvalidDecl. intros H.
  destruct (isa_CXXRecordDecl D && isInjectedClassName D); [minv; now left|].
  apply bind_inv in H as (R & S1 & _ & H). destruct R as [R0|]; [|minv; now left].
  apply bind_inv in H as (Invalid & S2 & _ & H).
  destruct Invalid; minv; [now left|right; now exists R0].
Qed.

Lemma InjectFragment_loop_appends host InjecteeDC InjectionDC Injectee :
  forall fuel Cur Decls S Decls' S',
    InjectFragment_loop host fuel InjecteeDC InjectionDC Injectee Cur Decls S
    = Done Decls' S' ->
    exists New, Decls' = Decls ++ New /\ (length New <= fuel)%nat.
Proof.
  induction fuel as [|fuel IH]; intros Cur Decls S Decls' S' H.
  - destruct Cur as [D|]; [discriminate H|]. apply ret_inv in H as [-> ->].
    exists []. split; [now rewrite app_nil_r|simpl; lia].
  - destruct Cur as [D|].
    + simpl in H. apply bind_inv in H as (Decls1 & S1 & H1 & H).
      apply bind_inv in H as (Next & S2 & _ & H).
      apply IH in H as (New & -> & HL).
      apply InjectFragment_member_appends in H1 as [->|(R & ->)].
      * exists New. split; [reflexivity|lia].
      * exists (R :: New). split; [now rewrite <- app_assoc|simpl; lia].
    + apply ret_inv in H as [-> ->]. exists []. split; [now rewrite app_nil_r|simpl; lia].
Qed.

(** X15.  Whenever [InjectFragment] returns, the current context and the
    current injection context are the ones it was called with; the result
    is true exactly when the contexts of the injection and of the injectee
    are compatible, whatever happened to the members; and [Decls] has only
    grown at its end, by at most one declaration for each iteration of the
    loop, and by none when the result is false. *)
Theorem InjectFragment_returns
    host fuel POI Ty Val Injectee Injection Decls S ok Decls' S' :
  InjectFragment host fuel POI Ty Val Injectee Injection Decls S = Done (ok, Decls') S' ->
  CurContext S' = CurContext S /\
  CurrentInjectionContext S' = CurrentInjectionContext S /\
  ok = negb (contextMismatch Injection Injectee) /\
  exists New,
    Decls' = Decls ++ New /\
    (length New <= fuel)%nat /\
    (ok = false -> New = []).
Proof.
  intros H. unfold InjectFragment in H.
  apply bind_inv in H as (u0 & S0 & H0 & H). apply massert_inv in H0 as [_ ->].
  apply bind_inv in H as (InjecteeDC & S0 & H0 & H).
  apply castToDeclContext_inv in H0 as (_ & -> & ->).
  apply bind_inv in H as (InjectionDC & S0 & H0 & H).
  apply castToDeclContext_inv in H0 as (_ & -> & ->).
  apply bind_inv in H as (ok1 & S1 & H1 & H).
  pose proof (CheckInjectionContexts_contexts _ _ _ _ _ _ H1) as (HC1 & HI1 & HS1).
  apply CheckInjectionContexts_inv in H1 as [Hok _].
  destruct ok1; simpl in H.
  2:{ apply ret_inv in H as [[= -> ->] ->]. repeat split; try assumption.
      exists []. split; [now rewrite app_nil_r|]. split; [simpl; lia|reflexivity]. }
  apply bind_inv in H as (NumCaptures & S2 & H2 & H).
  assert (S2 = S1) as ->.
  { clear H. unfold getStructNumFields in H2. destruct Val; minv; reflexivity. }
  apply bind_inv in H as (FragmentDC & S2 & H2' & H). apply deref_inv in H2' as [_ ->].
  apply bind_inv in H as (Fragment & S2 & H2' & H). apply cast_inv in H2' as (_ & -> & ->).
  apply bind_inv in H as (Prev & S2 & H2' & H). apply gets_inv in H2' as [-> ->].
  apply bind_inv in H as (u1 & S3 & H3 & H).
  unfold InjectionContext_ctor in H3. apply modify_inv in H3. subst S3.
  apply bind_inv in H as (u2 & S4 & H4 & H).
  apply AddDeclSubstitution_frame in H4 as (HC4 & HS4 & _). simpl in HC4, HS4.
  apply bind_inv in H as (u3 & S5 & H5 & H).
  apply AddPlaceholderSubstitutions_frame in H5 as (HC5 & HS5 & _).
  apply bind_inv in H as (Switch & S6 & H6 & H).
  apply ContextRAII_ctor_inv in H6 as [-> ->].
  apply bind_inv in H as (First & S6 & H6 & H). apply gets_inv in H6 as [-> ->].
  apply bind_inv in H as (Ds' & S7 & Hloop & H).
  apply bind_inv in H as (u4 & S8 & H8 & H).
  unfold ContextRAII_dtor in H8. apply modify_inv in H8. subst S8.
  apply bind_inv in H as (u5 & S9 & H9 & H).
  unfold InjectionContext_dtor in H9. apply modify_inv in H9. subst S9.
  apply ret_inv in H as [[= -> ->] ->].
  simpl. split; [congruence|]. split; [congruence|]. split; [exact Hok|].
  apply InjectFragment_loop_appends in Hloop as (New & -> & HL).
  exists New. split; [reflexivity|]. split; [exact HL|discriminate].
Qed.

(** *** Single-declaration copy: the paths through the checks and the traits *)

Lemma CopyDeclaration_enters_checked host POI Ty Val Injectee Injection InjectionDC Decls S :
  declContext Injection = Some InjectionDC ->
  isa_DeclContext Injectee = true ->
  isa_CXXRecordDecl Injection && isInjectedClassName Injection = false ->
  contextMismatch InjectionDC Injectee = false ->
  isa_VarDecl Injection && (hasLocalStorage Injection && negb (isFunctionOrMethod Injectee))
    = false ->
  CopyDeclaration host POI Ty Val Injectee Injection Decls S
  = match CopyDeclaration_body host POI Ty Val Injectee Injectee Injection Decls
            (injectionScope Injectee InjectionDC S) with
    | Done r S2 => Done r (leaveInjection S S2)
    | Crash f => Crash f
    end.
Proof.
  intros HDC HD HICN HM HV.
  unfold CopyDeclaration. rewrite HDC. unfold deref, castToDeclContext. rewrite HD, HICN.
  unfold bind at 1 2 3. unfold ret at 1 2.
  rewrite (CheckInjectionContexts_compatible _ _ _ _ HM). simpl negb. cbv iota.
  unfold CheckInjectionKind. rewrite HV.
  unfold bind at 1. unfold ret at 1. simpl negb. cbv iota.
  unfold InjectionContext_ctor, InjectionContext_dtor, AddDeclSubstitution, thisContext,
    setThisContext, ContextRAII_ctor, ContextRAII_dtor, massert, bind, gets, modify, ret.
  simpl. rewrite lookup_empty. rewrite (bool_decide_eq_true_2 _ eq_refl). simpl.
  change (withCurContext Injectee _) with (injectionScope Injectee InjectionDC S).
  destruct (CopyDeclaration_body host POI Ty Val Injectee Injectee Injection Decls
              (injectionScope Injectee InjectionDC S)) as [r S2|f]; reflexivity.
Qed.

(** Past the clone, [CopyDeclaration] applies the traits and finishes. *)
Lemma CopyDeclaration_cloned
    host POI Ty Val Injectee Injection InjectionDC Decls S T R S1 :
  copyClones host Ty Val Injectee Injection InjectionDC S T R S1 ->
  CopyDeclaration host POI Ty Val Injectee Injection Decls S
  = match (ok <- CopyDeclaration_access POI (Access T) Injectee R;;
           if negb ok then ret (false, Decls) else
           ok <- CopyDeclaration_constexpr host POI (Constexpr T) R;;
           if negb ok then ret (false, Decls) else
           ok <- CopyDeclaration_virtual host POI (Virtual T) (Pure T) R;;
           if negb ok then ret (false, Decls) else
           CopyDeclaration_finish host POI Injectee Injection R Decls) S1 with
    | Done r S2 => Done r (leaveInjection S S2)
    | Crash f => Crash f
    end.
Proof.
  intros [(HDC & HD & HICN & HM & HK & HT & HC) HV].
  rewrite (CopyDeclaration_enters_checked _ _ _ _ _ _ _ _ _ HDC HD HICN HM HK).
  unfold CopyDeclaration_body. rewrite (bind_Done _ _ _ _ _ HT).
  rewrite (bind_Done _ _ _ _ _ HC). unfold bind at 1. unfold gets at 1. rewrite HV.
  reflexivity.
Qed.

(** X16.  A declaration whose context is incompatible with the injectee (a
    function or method, a record, a namespace or the translation unit) is
    not copied: [CopyDeclaration] returns false with [Decls] as it was, and
    the state differs from the incoming one only by the mismatch
    diagnostic. *)
Theorem CopyDeclaration_context_mismatch
    host POI Ty Val Injectee Injection InjectionDC Decls S :
  declContext Injection = Some InjectionDC ->
  isa_CXXRecordDecl Injection && isInjectedClassName Injection = false ->
  contextMismatch InjectionDC Injectee = true ->
  isFunctionOrMethod Injectee || isRecord Injectee || isNamespace Injectee
    || isTranslationUnit Injectee = true ->
  exists Target,
    DescribeInjectionTarget Injectee S = Done Target S /\
    CopyDeclaration host POI Ty Val Injectee Injection Decls S
    = Done (false, Decls)
        (withDiags (Diags S ++ [mkDiag POI err_invalid_injection
                                  [mismatchSelector InjectionDC Injectee; Target]]) S).
Proof.
  intros HDC HICN HM HT.
  destruct (DescribeInjectionTarget_total Injectee S HT) as (Target & HTarget & _).
  exists Target. split; [exact HTarget|].
  assert (HD : isa_DeclContext Injectee = true).
  { unfold isFunctionOrMethod, isRecord, isNamespace, isTranslationUnit, isa_FunctionDecl,
      isa_CXXRecordDecl, isa_NamespaceDecl in HT. unfold isa_DeclContext.
    destruct (declKind Injectee); try reflexivity; discriminate. }
  unfold CopyDeclaration, deref, castToDeclContext. rewrite HDC, HD, HICN.
  unfold bind at 1 2. unfold ret at 1 2.
  unfold contextMismatch in HM. unfold mismatchSelector.
  unfold CheckInjectionContexts, InvalidInjection.
  destruct (isRecord InjectionDC && negb (isRecord Injectee)) eqn:H1.
  - unfold bind, ret, Diag, modify. rewrite HTarget. reflexivity.
  - simpl in HM. rewrite HM.
    unfold bind, ret, Diag, modify. rewrite HTarget. reflexivity.
Qed.

(** X17.  A variable with local storage is copied only into a function or
    method: for any other injectee [CopyDeclaration] returns false with
    [Decls] as it was, and the state differs from the incoming one only by
    the diagnostic, whose argument says whether the injectee is a record. *)
Theorem CopyDeclaration_local_variable_rejected
    host POI Ty Val Injectee Injection InjectionDC Decls S :
  declContext Injection = Some InjectionDC ->
  isa_DeclContext Injectee = true ->
  isa_VarDecl Injection = true ->
  hasLocalStorage Injection = true ->
  isFunctionOrMethod Injectee = false ->
  contextMismatch InjectionDC Injectee = false ->
  CopyDeclaration host POI Ty Val Injectee Injection Decls S
  = Done (false, Decls)
      (withDiags (Diags S ++ [mkDiag POI err_injecting_local_into_invalid_scope
                                [Z.b2z (isRecord Injectee)]]) S).
Proof.
  intros HDC HD HV HL HF HM.
  assert (HICN : isa_CXXRecordDecl Injection && isInjectedClassName Injection = false).
  { unfold isa_VarDecl in HV. unfold isa_CXXRecordDecl.
    destruct (declKind Injection); try reflexivity; discriminate. }
  unfold CopyDeclaration. rewrite HDC. unfold deref, castToDeclContext. rewrite HD, HICN.
  unfold bind at 1 2 3. unfold ret at 1 2.
  rewrite (CheckInjectionContexts_compatible _ _ _ _ HM). simpl negb. cbv iota.
  unfold CheckInjectionKind. rewrite HV, HL, HF. reflexivity.
Qed.

(** X18.  When the clone step yields no declaration, or an invalid one,
    [CopyDeclaration] gives up at once: it marks the injectee invalid,
    restores the contexts and returns false with [Decls] as it was, without
    a diagnostic of its own and without looking at the traits. *)
Theorem CopyDeclaration_failed_clone
    host POI Ty Val Injectee Injection InjectionDC Decls S T Result S1 :
  copyReaches host Ty Val Injectee Injection InjectionDC S T Result S1 ->
  match Result with Some R => isInvalidDecl S1 R = true | None => True end ->
  CopyDeclaration host POI Ty Val Injectee Injection Decls S
  = Done (false, Decls)
      (leaveInjection S (updateDeclState Injectee (withInvalid true) S1))
  /\ isInvalidDecl (leaveInjection S (updateDeclState Injectee (withInvalid true) S1))
       Injectee = true
  /\ Diags (leaveInjection S (updateDeclState Injectee (withInvalid true) S1)) = Diags S1.
Proof.
  intros (HDC & HD & HICN & HM & HK & HT & HC) HR. split; [|split].
  - rewrite (CopyDeclaration_enters_checked _ _ _ _ _ _ _ _ _ HDC HD HICN HM HK).
    unfold CopyDeclaration_body. rewrite (bind_Done _ _ _ _ _ HT).
    rewrite (bind_Done _ _ _ _ _ HC).
    destruct Result as [R|]; [|reflexivity].
    unfold bind at 1. unfold gets at 1. rewrite HR. reflexivity.
  - unfold isInvalidDecl, leaveInjection. 
    change (declState (withCurrentInjectionContext _ (withCurContext _ ?X)) Injectee)
      with (declState X Injectee).
    now rewrite declState_update_eq.
  - reflexivity.
Qed.

(** X19.  The constexpr trait on a clone that is a function other than a
    destructor never returns: the code sets the flag through the null
    result of the failed cast of the clone to a variable. *)
Theorem CopyDeclaration_constexpr_function_never_returns
    host POI Ty Val Injectee Injection InjectionDC Decls S T R S1 S2 :
  copyClones host Ty Val Injectee Injection InjectionDC S T R S1 ->
  CopyDeclaration_access POI (Access T) Injectee R S1 = Done true S2 ->
  Constexpr T = true ->
  isa_FunctionDecl R = true ->
  isa_CXXDestructorDecl R = false ->
  CopyDeclaration host POI Ty Val Injectee Injection Decls S = Crash NullDereference.
Proof.
  intros HC HA HCe HF HD.
  rewrite (CopyDeclaration_cloned _ _ _ _ _ _ _ _ _ _ _ _ HC).
  rewrite (bind_Done _ _ _ _ _ HA). simpl negb. cbv iota.
  unfold CopyDeclaration_constexpr. rewrite HCe, HD, HF.
  assert (HV : isa_VarDecl R = false).
  { unfold isa_FunctionDecl in HF. unfold isa_VarDecl.
    destruct (declKind R); try reflexivity; discriminate. }
  rewrite HV. reflexivity.
Qed.

(** X20.  An access trait whose enumeration value, as [ReadTraits] casts
    it, is above [Protected], such as the enumerator [Default], on a clone
    that is a member of a record ends in [llvm_unreachable]. *)
Theorem CopyDeclaration_access_out_of_range
    host POI Ty Val Injectee Injection InjectionDC Decls S T R S1 RDC :
  copyClones host Ty Val Injectee Injection InjectionDC S T R S1 ->
  3 < Access T ->
  declContext R = Some RDC ->
  isRecord RDC = true ->
  CopyDeclaration host POI Ty Val Injectee Injection Decls S = Crash Unreachable.
Proof.
  intros HC HA HR HRec.
  rewrite (CopyDeclaration_cloned _ _ _ _ _ _ _ _ _ _ _ _ HC).
  unfold CopyDeclaration_access, toBool, Public, Private, Protected.
  destruct (Z.eqb_spec (Access T) 0) as [e|_]; [lia|].
  destruct (Z.eqb_spec (Access T) 1) as [e|_]; [lia|].
  destruct (Z.eqb_spec (Access T) 2) as [e|_]; [lia|].
  destruct (Z.eqb_spec (Access T) 3) as [e|_]; [lia|].
  simpl negb. cbv iota. unfold bind, deref, ret, crash. rewrite HR, HRec. reflexivity.
Qed.

(** X21.  An access trait on a clone that is not a member of a record is
    refused with the "member specifier of a non-member" diagnostic:
    [CopyDeclaration] returns false with [Decls] as it was, and apart from
    the diagnostic and the restored contexts the state is the one the clone
    step left, clone included. *)
Theorem CopyDeclaration_access_of_non_member
    host POI Ty Val Injectee Injection InjectionDC Decls S T R S1 RDC :
  copyClones host Ty Val Injectee Injection InjectionDC S T R S1 ->
  Access T <> 0 ->
  declContext R = Some RDC ->
  isRecord RDC = false ->
  CopyDeclaration host POI Ty Val Injectee Injection Decls S
  = Done (false, Decls)
      (leaveInjection S (reported POI err_modifies_mem_spec_of_non_member [0] S1)).
Proof.
  intros HC HA HR HRec.
  rewrite (CopyDeclaration_cloned _ _ _ _ _ _ _ _ _ _ _ _ HC).
  unfold CopyDeclaration_access, toBool.
  destruct (Z.eqb_spec (Access T) 0) as [e|_]; [contradiction|].
  simpl negb. cbv iota. unfold bind, deref, ret, Diag, modify. rewrite HR, HRec. reflexivity.
Qed.

(** X22.  The "virtual non-function" diagnostic is what [CopyDeclaration]
    reports, returning false with [Decls] as it was, both for the virtual
    trait on a clone that is not a method and for the constexpr trait on a
    clone that is neither a variable nor a function; the state is the one
    the access trait left, plus the diagnostic, with the contexts
    restored. *)
Theorem CopyDeclaration_virtual_non_function
    host POI Ty Val Injectee Injection InjectionDC Decls S T R S1 S2 :
  copyClones host Ty Val Injectee Injection InjectionDC S T R S1 ->
  CopyDeclaration_access POI (Access T) Injectee R S1 = Done true S2 ->
  (Constexpr T = true /\ isa_VarDecl R = false /\ isa_FunctionDecl R = false)
  \/ (Constexpr T = false /\ Virtual T = true /\ isa_CXXMethodDecl R = false) ->
  CopyDeclaration host POI Ty Val Injectee Injection Decls S
  = Done (false, Decls) (leaveInjection S (reported POI err_virtual_non_function [] S2)).
Proof.
  intros HC HA HT.
  rewrite (CopyDeclaration_cloned _ _ _ _ _ _ _ _ _ _ _ _ HC).
  rewrite (bind_Done _ _ _ _ _ HA). simpl negb. cbv iota.
  destruct HT as [(HCe & HV & HF)|(HCe & HVi & HM)].
  - unfold CopyDeclaration_constexpr. rewrite HCe, HV, HF.
    assert (HD : isa_CXXDestructorDecl R = false).
    { unfold isa_FunctionDecl in HF. unfold isa_CXXDestructorDecl.
      destruct (declKind R); try reflexivity; discriminate. }
    rewrite HD. reflexivity.
  - unfold CopyDeclaration_constexpr, CopyDeclaration_virtual. rewrite HCe, HVi, HM.
    reflexivity.
Qed.

(** X23.  Without traits, the valid clone [R] of a declaration that is
    neither a function nor a class is handed to its context with
    [updateDecl] and appended to [Decls]; before that its access becomes
    public if it had none and the injectee is a class.  The result tells
    whether the injectee is valid after [updateDecl], and the contexts are
    restored. *)
Theorem CopyDeclaration_without_traits
    host POI Ty Val Injectee Injection InjectionDC Decls S T R S1 RDC :
  copyClones host Ty Val Injectee Injection InjectionDC S T R S1 ->
  Access T = 0 ->
  Constexpr T = false ->
  Virtual T = false ->
  isa_FunctionDecl Injection = false ->
  isa_CXXRecordDecl Injection = false ->
  declContext R = Some RDC ->
  CopyDeclaration host POI Ty Val Injectee Injection Decls S
  = Done (negb (isInvalidDecl (snd (updateDecl host RDC R (defaultAccess Injectee R S1)))
                  Injectee),
          Decls ++ [R])
      (leaveInjection S (snd (updateDecl host RDC R (defaultAccess Injectee R S1)))).
Proof.
  intros HC HA HCe HVi HF HRec HR.
  rewrite (CopyDeclaration_cloned _ _ _ _ _ _ _ _ _ _ _ _ HC).
  assert (Hacc : CopyDeclaration_access POI (Access T) Injectee R S1
                 = Done true (defaultAccess Injectee R S1)).
  { unfold CopyDeclaration_access, defaultAccess. rewrite HA. simpl.
    destruct (isa_CXXRecordDecl Injectee); [|reflexivity].
    unfold bind, gets, ret, setAccess, modify. now destruct (getAccess S1 R). }
  rewrite (bind_Done _ _ _ _ _ Hacc). simpl negb. cbv iota.
  unfold CopyDeclaration_constexpr, CopyDeclaration_virtual. rewrite HCe, HVi.
  unfold CopyDeclaration_finish. rewrite HF, HRec, HR.
  unfold bind, ret, deref, call, gets. simpl.
  destruct (updateDecl host RDC R (defaultAccess Injectee R S1)) as [[] S3]. reflexivity.
Qed.

(** *** Single-declaration copy: a field made static *)


(** *** Reading the modification traits *)

Lemma getStructField_inv V i S F S' :
  getStructField V i S = Done F S' ->
  S' = S /\ exists Bs Fs, V = APStruct Bs Fs /\ Fs !! i = Some F.
Proof.
  unfold getStructField. destruct V as [| |Bs Fs]; try discriminate.
  destruct (Fs !! i) as [F0|] eqn:HF; [|discriminate].
  intros H. apply ret_inv in H as [-> ->]. split; [reflexivity|]. now exists Bs, Fs.
Qed.

Lemma getInt_inv V S v S' : getInt V S = Done v S' -> V = APInt v /\ S' = S.
Proof.
  unfold getInt. destruct V; try discriminate. intros H. apply ret_inv in H as [-> ->].
  now split.
Qed.

(** Induction along the first base of a structured value. *)
Lemma APValue_first_base_ind (P : APValue -> Prop) :
  P APNone ->
  (forall v, P (APInt v)) ->
  (forall Fs, P (APStruct [] Fs)) ->
  (forall V0 Bs Fs, P V0 -> P (APStruct (V0 :: Bs) Fs)) ->
  forall V, P V.
Proof.
  intros H1 H2 H3 H4. fix IH 1.
  intros [| v | [|V0 Bs] Fs]; [exact H1|apply H2|apply H3|apply H4; apply IH].
Qed.

Lemma GetModifications_scalar V T N S M S' :
  (forall Bs Fs, V <> APStruct Bs Fs) -> GetModifications V T N S = Done M S' -> False.
Proof.
  intros HV H.
  destruct V as [| |Bs Fs]; [| |now destruct (HV Bs Fs)].
  all: simpl in H; destruct (getAsCXXRecordDecl T) as [Class|] eqn:HT;
       [|discriminate H];
       unfold bind, ret, gets, massert in H;
       destruct (bool_decide (length (lookup_name S Class N) <= 1)%nat); [|discriminate H];
       destruct (lookup_name S Class N) as [|F0 L] eqn:HL;
       [destruct (declBases Class); discriminate H|];
       unfold cast in H; destruct (isa_FieldDecl F0); discriminate H.
Qed.

Lemma GetModifications_struct Bs Fs :
  (forall V0 Bs', Bs = V0 :: Bs' -> forall T N S M S',
     GetModifications V0 T N S = Done M S' -> S' = S /\ foundOnFirstBases S N V0 T M) ->
  forall T N S M S',
    GetModifications (APStruct Bs Fs) T N S = Done M S' ->
    S' = S /\ foundOnFirstBases S N (APStruct Bs Fs) T M.
Proof.
  intros IH T N S M S' H.
  simpl in H. destruct (getAsCXXRecordDecl T) as [Class|] eqn:HT; [|discriminate H].
  unfold bind at 1 in H. unfold ret at 1 in H.
  unfold bind at 1 in H. unfold gets at 1 in H.
  unfold bind at 1 in H. unfold massert at 1 in H.
  destruct (bool_decide_reflect (length (lookup_name S Class N) <= 1)%nat) as [HLen|];
    [|discriminate H].
  unfold ret at 1 in H.
  destruct (lookup_name S Class N) as [|F0 L] eqn:HL.
  - destruct (declBases Class) as [|B Bases] eqn:HB; [discriminate H|].
    destruct Bs as [|V0 Bs]; [discriminate H|].
    apply (IH V0 Bs eq_refl) in H
      as (-> & Pre & V' & C' & F & Post & HP & HPre & HF).
    split; [reflexivity|].
    exists ((APStruct (V0 :: Bs) Fs, Class) :: Pre), V', C', F, Post.
    split; [|split; [|exact HF]].
    + simpl. rewrite HT, HB. now rewrite HP.
    + constructor; [exact HL|exact HPre].
  - apply bind_inv in H as (F & S0 & HC & H). apply cast_inv in HC as (HF & -> & ->).
    change (getStructField (APStruct Bs Fs) (declFieldIndex F0) S = Done M S') in H.
    pose proof (getStructField_inv _ _ _ _ _ H) as [-> _].
    split; [reflexivity|].
    assert (L = []) as -> by (destruct L; [reflexivity|simpl in HLen; lia]).
    exists [], (APStruct Bs Fs), Class, F0,
      (match declBases Class, APStruct Bs Fs with
       | B :: _, APStruct (V0 :: _) _ => firstBaseSubobjects V0 B
       | _, _ => []
       end).
    split; [simpl; now rewrite HT|].
    split; [apply List.Forall_nil|]. split; [exact HL|]. split; [exact HF|exact H].
Qed.

Lemma GetModifications_inv V : forall T N S M S',
  GetModifications V T N S = Done M S' -> S' = S /\ foundOnFirstBases S N V T M.
Proof.
  induction V as [|v|Fs|V0 Bs Fs IH] using APValue_first_base_ind; intros T N S M S' H.
  - exfalso. eapply GetModifications_scalar; [|exact H]. discriminate.
  - exfalso. eapply GetModifications_scalar; [|exact H]. discriminate.
  - eapply GetModifications_struct; [|exact H]. discriminate.
  - eapply GetModifications_struct; [|exact H]. intros V1 Bs' [= <- <-]. exact IH.
Qed.

Lemma GetModifications_found V : forall T N S M,
  foundOnFirstBases S N V T M -> GetModifications V T N S = Done M S.
Proof.
  induction V as [|v|Fs|V0 Bs Fs IH] using APValue_first_base_ind;
    intros T N S M (Pre & V' & Class & F & Post & HP & HPre & HL & HF & HM).
  1,2: simpl in HP; destruct (getAsCXXRecordDecl T) as [C0|]; [|now destruct Pre];
       destruct Pre as [|p Pre];
       [injection HP as <- <- _; discriminate HM
       |injection HP as _ HP; destruct (declBases C0); now destruct Pre].
  - simpl in HP. destruct (getAsCXXRecordDecl T) as [C0|] eqn:HT; [|now destruct Pre].
    destruct Pre as [|p Pre].
    + injection HP as <- <- _. simpl. rewrite HT.
      unfold bind, ret, gets, massert, cast. rewrite HL, HF. simpl. exact HM.
    + injection HP as _ HP. destruct (declBases C0); now destruct Pre.
  - simpl in HP. destruct (getAsCXXRecordDecl T) as [C0|] eqn:HT; [|now destruct Pre].
    destruct Pre as [|p Pre].
    + injection HP as <- <- _. simpl. rewrite HT.
      unfold bind, ret, gets, massert, cast. rewrite HL, HF. simpl. exact HM.
    + injection HP as <- HP. apply Forall_cons in HPre as [Hp HPre]. simpl in Hp.
      destruct (declBases C0) as [|B Bases] eqn:HB; [now destruct Pre|].
      simpl. rewrite HT.
      unfold bind at 1. unfold ret at 1. unfold bind at 1. unfold gets at 1.
      rewrite Hp. simpl. rewrite HB.
      apply IH. now exists Pre, V', Class, F, Post.
Qed.

(** X24.  [GetModifications] only reads, and it returns exactly when, going
    from the value itself along the first bases, there is a first subobject
    whose class has a member named [N], that member is the only one of its
    name and is a field, and the subobject has a field at its index; the
    result is that field of the subobject. *)
Theorem GetModifications_searches_first_bases V T N S M S' :
  GetModifications V T N S = Done M S' <->
  S' = S /\ foundOnFirstBases S N V T M.
Proof.
  split; [apply GetModifications_inv|intros [-> H]; now apply GetModifications_found].
Qed.

(** X25.  [ReadTraits] only reads: when it returns, the state is unchanged;
    the access and the storage traits are the integers at the fields 1 and
    2 of the value [GetModifications] finds for [mods], cast to their
    enumerations (modulo [2 ^ 32]), the flags are the integers at the
    fields 3 to 5 read as booleans; and the storage trait, as cast, is
    neither automatic nor thread-local. *)
Theorem ReadTraits_returns Ty Val S T S' :
  ReadTraits Ty Val S = Done T S' ->
  S' = S /\
  Storage T <> Automatic /\ Storage T <> ThreadLocal /\
  0 <= Access T < 2 ^ 32 /\ 0 <= Storage T < 2 ^ 32 /\
  exists Mods Bs Fs a s c v p,
    GetModifications Val Ty "mods" S = Done Mods S /\
    Mods = APStruct Bs Fs /\
    Fs !! 1%nat = Some (APInt a) /\ Access T = castToEnum a /\
    Fs !! 2%nat = Some (APInt s) /\ Storage T = castToEnum s /\
    Fs !! 3%nat = Some (APInt c) /\ Constexpr T = toBool c /\
    Fs !! 4%nat = Some (APInt v) /\ Virtual T = toBool v /\
    Fs !! 5%nat = Some (APInt p) /\ Pure T = toBool p.
Proof.
  intros H. unfold ReadTraits in H.
  apply bind_inv in H as (Mods & S0 & HM & H).
  pose proof (GetModifications_inv _ _ _ _ _ _ HM) as [-> _].
  assert (Hfield : forall i x S1 S2,
            (F <- getStructField Mods i;; getInt F) S1 = Done x S2 ->
            S2 = S1 /\ exists Bs Fs, Mods = APStruct Bs Fs /\ Fs !! i = Some (APInt x)).
  { intros i x S1 S2 Hx. apply bind_inv in Hx as (F & S3 & H1 & H2).
    apply getStructField_inv in H1 as (-> & Bs & Fs & -> & HF).
    apply getInt_inv in H2 as [-> ->]. split; [reflexivity|]. now exists Bs, Fs. }
  apply bind_inv in H as (A & S1 & H1 & H). apply Hfield in H1 as (-> & Bs & Fs & -> & HA).
  apply bind_inv in H as (St & S1 & H1 & H).
  apply Hfield in H1 as (-> & ? & ? & [= <- <-] & HSt).
  apply bind_inv in H as (C & S1 & H1 & H).
  apply Hfield in H1 as (-> & ? & ? & [= <- <-] & HC).
  apply bind_inv in H as (V & S1 & H1 & H).
  apply Hfield in H1 as (-> & ? & ? & [= <- <-] & HV).
  apply bind_inv in H as (P & S1 & H1 & H).
  apply Hfield in H1 as (-> & ? & ? & [= <- <-] & HP).
  cbv zeta in H.
  apply bind_inv in H as (u1 & S1 & H1 & H). apply massert_inv in H1 as [Ha ->].
  apply bind_inv in H as (u2 & S1 & H1 & H). apply massert_inv in H1 as [Ht ->].
  apply ret_inv in H as [-> ->]. simpl.
  split; [reflexivity|].
  split; [intros E; rewrite E in Ha; discriminate Ha|].
  split; [intros E; rewrite E in Ht; discriminate Ht|].
  split; [apply Z.mod_pos_bound; lia|]. split; [apply Z.mod_pos_bound; lia|].
  exists (APStruct Bs Fs), Bs, Fs, A, St, C, V, P. now repeat split.
Qed.



(** ** The further properties at work on the example programs *)

(** The fragment's class registered beside the owner [Src]. *)
Lemma AddDeclSubstitution_example :
  exists C',
    AddDeclSubstitution fragmentClass classS copySema
    = Done tt (withCurrentInjectionContext (C' :: []) copySema) /\
    GetDeclReplacement C' fragmentClass = Some classS /\
    (forall D, declID D <> declID fragmentClass ->
               GetDeclReplacement C' D = GetDeclReplacement copyContext D) /\
    PlaceholderSubsts C' = PlaceholderSubsts copyContext /\
    Injectee C' = Injectee copyContext.
Proof.
  apply (AddDeclSubstitution_then_GetDeclReplacement fragmentClass classS copyContext []
           copySema); vm_compute; reflexivity.
Defined.

(** [Src] already has a substitution in that context: a second one is
    refused. *)
Lemma AddDeclSubstitution_twice_example :
  ((exists S', AddDeclSubstitution classSrc nsMeta copySema = Done tt S') <->
   GetDeclReplacement copyContext classSrc = None)
  /\ (GetDeclReplacement copyContext classSrc <> None ->
      AddDeclSubstitution classSrc nsMeta copySema = Crash AssertionFailed).
Proof.
  apply (AddDeclSubstitution_returns_iff_unmapped classSrc nsMeta copyContext [] copySema).
  vm_compute. reflexivity.
Defined.

(** The placeholders of [c] and [a] paired with the fields of the class of
    the fragment expression and the captured values 1 and 2. *)
Lemma AddPlaceholderSubstitutions_example :
  exists C',
    AddPlaceholderSubstitutions capFragment (Some capClass) [APInt 1; APInt 2] captureSema
    = Done tt (withCurrentInjectionContext (C' :: []) captureSema) /\
    DeclSubsts C' = DeclSubsts (mkInjectionContext classS ∅ ∅) /\
    forall i P F V,
      decls captureSema capFragment !! i = Some P -> fields captureSema capClass !! i = Some F ->
      [APInt 1; APInt 2] !! i = Some V ->
      forall T VK Loc,
        GetPlaceholderReplacement C' (DeclRefExpr P T VK Loc)
        = Some (placeholderReplacement (DeclRefExpr P T VK Loc) (declType F) V).
Proof.
  apply (AddPlaceholderSubstitutions_pairs_by_position capFragment capClass
           [APInt 1; APInt 2] (mkInjectionContext classS ∅ ∅) [] captureSema).
  - vm_compute. reflexivity.
  - vm_compute. reflexivity.
  - vm_compute. lia.
  - vm_compute. lia.
  - replace (take (length [APInt 1; APInt 2]) (decls captureSema capFragment))
      with [placeholderC; placeholderA] by (vm_compute; reflexivity).
    repeat constructor.
  - replace (take (length [APInt 1; APInt 2]) (decls captureSema capFragment))
      with [placeholderC; placeholderA] by (vm_compute; reflexivity).
    apply (bool_decide_unpack (NoDup (map declID [placeholderC; placeholderA]))).
    vm_compute. exact I.
  - replace (take (length [APInt 1; APInt 2]) (decls captureSema capFragment))
      with [placeholderC; placeholderA] by (vm_compute; reflexivity).
    repeat constructor.
Defined.

(** Two captured values for the fragment of the first examples, which has
    one member and whose expression class has no field. *)
Lemma AddPlaceholderSubstitutions_count_mismatch_example :
  exists f,
    AddPlaceholderSubstitutions fragment (Some fragmentExprClass) [APInt 1; APInt 2]
      captureSema = Crash f.
Proof.
  apply (AddPlaceholderSubstitutions_count_mismatch fragment fragmentExprClass
           [APInt 1; APInt 2] captureSema).
  left. vm_compute. lia.
Defined.

(** The placeholders of a fragment started with the captures [c] and [a]. *)
Lemma ActOnStartCXXFragment_placeholder_attributes_example :
  exists S1,
    ActOnStartCXXFragment (exampleHost (fun _ => false)) None 9%nat
      (ReferenceCaptures [varC; varA]) blockSema
    = Done (fragmentAt blockSema 9%nat) S1
    /\ Forall (fun P => declState S1 P = placeholderState (declLocation P) /\
                        declStorageClass P = SC_Static)
              (decls S1 (fragmentAt blockSema 9%nat))
    /\ Forall2 (fun P V => declLocation P = declLocation V)
               (decls S1 (fragmentAt blockSema 9%nat)) [varC; varA]
    /\ forall D, (declID D < NextDecl blockSema)%positive ->
                 declState S1 D = declState blockSema D.
Proof.
  apply (ActOnStartCXXFragment_placeholder_attributes (exampleHost (fun _ => false)) None
           9%nat (ReferenceCaptures [varC; varA]) [varC; varA] blockSema).
  repeat constructor.
Defined.


(** The captures of that example are [c], [p] and [a]. *)
Example capturesOf_block :
  capturesOf blockSema scopeBlock
    (getCurFunctionDecl (exampleHost (fun _ => false)) blockSema)
  = [varC; parmP; varA].
Proof. vm_compute. reflexivity. Qed.

(** [function<int>] declared in the inline namespace [v1] of [meta]. *)
Lemma ReferencedReflectionClass_inline_namespace_example :
  ReferencedReflectionClass (exampleHost (fun _ => false))
    (OtherExpr (RecordTy functionOfInt) 3%nat) programSema
  = Done (if Equals nsMeta (Some nsMeta) then Some functionOfInt else None) programSema.
Proof.
  apply (ReferencedReflectionClass_strips_one_inline_namespace (exampleHost (fun _ => false))
           (OtherExpr (RecordTy functionOfInt) 3%nat) functionOfInt nsV1 nsMeta (Some nsMeta)
           programSema programSema); vm_compute; reflexivity.
Defined.

(** Three diagnostic effects: the class [S], the type [int], and the type
    of [S], which is printed as the class. *)
Lemma ApplyEffects_diagnostics_example :
  ApplyEffects printingHost 0%nat 5%nat
    (map (fun v => DiagnosticEffect (APInt v)) [1; 2; 3]) programSema
  = Done true
      (withErrs (Errs programSema ++ [PrintedDecl classS; PrintedType intTy; PrintedDecl classS])
         programSema).
Proof.
  apply (ApplyEffects_diagnostics_only printingHost 0%nat 5%nat [1; 2; 3]
           [PrintedDecl classS; PrintedType intTy; PrintedDecl classS] programSema).
  repeat constructor.
Defined.

(** The fragment injected into what the reflection [int] denotes. *)
Lemma ApplyInjection_unresolved_injectee_example :
  ApplyInjection (exampleHost (fun _ => false)) 3%nat 5%nat
    (mkInjectionInfo (RecordTy fragmentExprClass) fragmentValue intTy) programSema
  = Done false
      (withDiags (Diags programSema ++ [mkDiag 5%nat err_reflection_not_a_decl []])
         programSema).
Proof.
  apply (ApplyInjection_unresolved_injectee (exampleHost (fun _ => false)) 3%nat 5%nat
           (mkInjectionInfo (RecordTy fragmentExprClass) fragmentValue intTy) programSema
           (Some fragmentClass) programSema RC_Invalid programSema);
    vm_compute; reflexivity.
Defined.

(** What the reflection [int] denotes injected into the current context. *)
Lemma ApplyInjection_unresolved_injection_example :
  ApplyInjection (exampleHost (fun _ => false)) 3%nat 5%nat
    (mkInjectionInfo intTy fragmentValue NullTy) programSema = Crash NullDereference.
Proof.
  apply (ApplyInjection_unresolved_injection (exampleHost (fun _ => false)) 3%nat 5%nat
           (mkInjectionInfo intTy fragmentValue NullTy) programSema RC_Invalid programSema);
    vm_compute; reflexivity.
Defined.

(** The field [n] of [Src] copied into [S] as a static member. *)
Lemma CopyDeclaration_returns_example :
  exists S',
    CopyDeclaration (exampleHost (fun _ => false)) 5%nat (RecordTy memberReflection)
      (memberValue 0 Static 0 0 0) classS fieldN [] programSema
    = Done (true, [staticMemberFor fieldN classS 100%positive "n" intTy]) S' /\
    CurContext S' = CurContext programSema /\
    CurrentInjectionContext S' = CurrentInjectionContext programSema /\
    (([staticMemberFor fieldN classS 100%positive "n" intTy] = [] /\
      (true = true ->
       isa_CXXRecordDecl fieldN && isInjectedClassName fieldN = true /\ S' = programSema))
     \/ (exists R, [staticMemberFor fieldN classS 100%positive "n" intTy] = [] ++ [R] /\
                   true = negb (isInvalidDecl S' classS))).
Proof.
  eexists. split; [vm_compute; reflexivity|].
  apply (CopyDeclaration_returns (exampleHost (fun _ => false)) 5%nat
           (RecordTy memberReflection) (memberValue 0 Static 0 0 0) classS fieldN []
           programSema).
  vm_compute. reflexivity.
Defined.

(** The fragment [struct { int x; int y; }] injected into [S] while the
    substitution of [x] fails. *)
Lemma InjectFragment_returns_example :
  exists S',
    InjectFragment (exampleHost (fun D => sameDecl D fieldX)) 3%nat 5%nat
      (RecordTy fragmentExprClass) fragmentValue classS fragmentClass [] programSema
    = Done (true, [cloneInto fieldY classS 100%positive]) S' /\
    CurContext S' = CurContext programSema /\
    CurrentInjectionContext S' = CurrentInjectionContext programSema /\
    true = negb (contextMismatch fragmentClass classS) /\
    exists New,
      [cloneInto fieldY classS 100%positive] = [] ++ New /\
      (length New <= 3)%nat /\
      (true = false -> New = []).
Proof.
  eexists. split; [vm_compute; reflexivity|].
  apply (InjectFragment_returns (exampleHost (fun D => sameDecl D fieldX)) 3%nat 5%nat
           (RecordTy fragmentExprClass) fragmentValue classS fragmentClass [] programSema).
  vm_compute. reflexivity.
Defined.

(** The loop walks the members as they stand: injecting the class of the
    fragment into itself, every clone becomes a member to visit in turn,
    and the loop is still running after any number of iterations tried
    here. *)
Example InjectFragment_into_itself_goes_on :
  InjectFragment (exampleHost (fun _ => false)) 50%nat 5%nat
    (RecordTy fragmentExprClass) fragmentValue fragmentClass fragmentClass [] programSema
  = Crash OutOfFuel.
Proof. vm_compute. reflexivity. Qed.

(** The field [n] of [Src] copied into namespace [meta]. *)
Lemma CopyDeclaration_context_mismatch_example :
  exists Target,
    DescribeInjectionTarget nsMeta programSema = Done Target programSema /\
    CopyDeclaration (exampleHost (fun _ => false)) 5%nat (RecordTy memberReflection)
      (memberValue 0 0 0 0 0) nsMeta fieldN [] programSema
    = Done (false, [])
        (withDiags (Diags programSema ++
                      [mkDiag 5%nat err_invalid_injection
                         [mismatchSelector classSrc nsMeta; Target]]) programSema).
Proof.
  apply (CopyDeclaration_context_mismatch (exampleHost (fun _ => false)) 5%nat
           (RecordTy memberReflection) (memberValue 0 0 0 0 0) nsMeta fieldN classSrc []
           programSema); vm_compute; reflexivity.
Defined.

(** The local variable [a] of [f] copied into class [S]. *)
Lemma CopyDeclaration_local_variable_example :
  CopyDeclaration (exampleHost (fun _ => false)) 5%nat (RecordTy memberReflection)
    (memberValue 0 0 0 0 0) classS varA [] programSema
  = Done (false, [])
      (withDiags (Diags programSema ++
                    [mkDiag 5%nat err_injecting_local_into_invalid_scope
                       [Z.b2z (isRecord classS)]]) programSema).
Proof.
  apply (CopyDeclaration_local_variable_rejected (exampleHost (fun _ => false)) 5%nat
           (RecordTy memberReflection) (memberValue 0 0 0 0 0) classS varA functionF []
           programSema); vm_compute; reflexivity.
Defined.

(** The field [n] copied into [S] by a host that fails to substitute it. *)
Lemma CopyDeclaration_failed_clone_example :
  CopyDeclaration (exampleHost (fun D => sameDecl D fieldN)) 5%nat
    (RecordTy memberReflection) (memberValue 0 0 0 0 0) classS fieldN [] programSema
  = Done (false, [])
      (leaveInjection programSema (updateDeclState classS (withInvalid true) copySema))
  /\ isInvalidDecl
       (leaveInjection programSema (updateDeclState classS (withInvalid true) copySema))
       classS = true
  /\ Diags (leaveInjection programSema (updateDeclState classS (withInvalid true) copySema))
     = Diags copySema.
Proof.
  apply (CopyDeclaration_failed_clone (exampleHost (fun D => sameDecl D fieldN)) 5%nat
           (RecordTy memberReflection) (memberValue 0 0 0 0 0) classS fieldN classSrc []
           programSema (mkTraits 0 0 false false false) None copySema).
  - unfold copyReaches; repeat apply conj; vm_compute; reflexivity.
  - exact I.
Defined.

(** The method [m] of [Src] copied into [S] as constexpr. *)
Lemma CopyDeclaration_constexpr_function_example :
  CopyDeclaration (exampleHost (fun _ => false)) 5%nat (RecordTy memberReflection)
    (memberValue 0 0 1 0 0) classS methodM [] programSema
  = Crash NullDereference.
Proof.
  apply (CopyDeclaration_constexpr_function_never_returns (exampleHost (fun _ => false))
           5%nat (RecordTy memberReflection) (memberValue 0 0 1 0 0) classS methodM classSrc
           [] programSema (mkTraits 0 0 true false false)
           (cloneInto methodM classS 100%positive)
           (snd (cloneSubstDecl (fun _ => false) methodM classS copySema))
           (defaultAccess classS (cloneInto methodM classS 100%positive)
              (snd (cloneSubstDecl (fun _ => false) methodM classS copySema))));
    try (unfold copyClones, copyReaches; repeat apply conj; vm_compute; reflexivity).
Defined.

(** The field [n] copied into [S] with the access trait [Default]. *)
Lemma CopyDeclaration_access_default_example :
  CopyDeclaration (exampleHost (fun _ => false)) 5%nat (RecordTy memberReflection)
    (memberValue Default 0 0 0 0) classS fieldN [] programSema
  = Crash Unreachable.
Proof.
  apply (CopyDeclaration_access_out_of_range (exampleHost (fun _ => false))
           5%nat (RecordTy memberReflection) (memberValue Default 0 0 0 0) classS fieldN
           classSrc [] programSema (mkTraits Default 0 false false false)
           (cloneInto fieldN classS 100%positive)
           (snd (cloneSubstDecl (fun _ => false) fieldN classS copySema)) classS);
    try (unfold copyClones, copyReaches; repeat apply conj; vm_compute; reflexivity).
Defined.

(** The global variable [g] copied into namespace [meta] as public. *)
Lemma CopyDeclaration_access_of_non_member_example :
  CopyDeclaration (exampleHost (fun _ => false)) 5%nat (RecordTy memberReflection)
    (memberValue Public 0 0 0 0) nsMeta globalG [] programSema
  = Done (false, [])
      (leaveInjection programSema
         (reported 5%nat err_modifies_mem_spec_of_non_member [0]
            (snd (cloneSubstDecl (fun _ => false) globalG nsMeta
                    (injectionScope nsMeta TU programSema))))).
Proof.
  apply (CopyDeclaration_access_of_non_member (exampleHost (fun _ => false))
           5%nat (RecordTy memberReflection) (memberValue Public 0 0 0 0) nsMeta globalG
           TU [] programSema (mkTraits Public 0 false false false)
           (cloneInto globalG nsMeta 100%positive)
           (snd (cloneSubstDecl (fun _ => false) globalG nsMeta
                   (injectionScope nsMeta TU programSema))) nsMeta);
    try (unfold copyClones, copyReaches; repeat apply conj; vm_compute; reflexivity).
  discriminate.
Defined.

(** The field [n] copied into [S] as virtual. *)
Lemma CopyDeclaration_virtual_field_example :
  CopyDeclaration (exampleHost (fun _ => false)) 5%nat (RecordTy memberReflection)
    (memberValue 0 0 0 1 0) classS fieldN [] programSema
  = Done (false, [])
      (leaveInjection programSema
         (reported 5%nat err_virtual_non_function []
            (defaultAccess classS (cloneInto fieldN classS 100%positive)
               (snd (cloneSubstDecl (fun _ => false) fieldN classS copySema))))).
Proof.
  apply (CopyDeclaration_virtual_non_function (exampleHost (fun _ => false))
           5%nat (RecordTy memberReflection) (memberValue 0 0 0 1 0) classS fieldN
           classSrc [] programSema (mkTraits 0 0 false true false)
           (cloneInto fieldN classS 100%positive)
           (snd (cloneSubstDecl (fun _ => false) fieldN classS copySema))
           (defaultAccess classS (cloneInto fieldN classS 100%positive)
              (snd (cloneSubstDecl (fun _ => false) fieldN classS copySema))));
    try (unfold copyClones, copyReaches; repeat apply conj; vm_compute; reflexivity).
  right. repeat apply conj; reflexivity.
Defined.

(** The field [n] copied into [S] without traits. *)
Lemma CopyDeclaration_without_traits_example :
  CopyDeclaration (exampleHost (fun _ => false)) 5%nat (RecordTy memberReflection)
    (memberValue 0 0 0 0 0) classS fieldN [] programSema
  = Done (negb (isInvalidDecl
                  (snd (updateDecl (exampleHost (fun _ => false)) classS
                          (cloneInto fieldN classS 100%positive)
                          (defaultAccess classS (cloneInto fieldN classS 100%positive)
                             (snd (cloneSubstDecl (fun _ => false) fieldN classS copySema)))))
                  classS),
          [] ++ [cloneInto fieldN classS 100%positive])
      (leaveInjection programSema
         (snd (updateDecl (exampleHost (fun _ => false)) classS
                 (cloneInto fieldN classS 100%positive)
                 (defaultAccess classS (cloneInto fieldN classS 100%positive)
                    (snd (cloneSubstDecl (fun _ => false) fieldN classS copySema)))))).
Proof.
  apply (CopyDeclaration_without_traits (exampleHost (fun _ => false))
           5%nat (RecordTy memberReflection) (memberValue 0 0 0 0 0) classS fieldN
           classSrc [] programSema (mkTraits 0 0 false false false)
           (cloneInto fieldN classS 100%positive)
           (snd (cloneSubstDecl (fun _ => false) fieldN classS copySema)) classS);
    try (unfold copyClones, copyReaches; repeat apply conj; vm_compute; reflexivity).
Defined.

(** After that copy the clone of [n] is a public member of [S]. *)
Example CopyDeclaration_without_traits_run :
  match CopyDeclaration (exampleHost (fun _ => false)) 5%nat (RecordTy memberReflection)
          (memberValue 0 0 0 0 0) classS fieldN [] programSema with
  | Done (ok, Ds) S' =>
      ok = true /\ decls S' classS = Ds /\ map (getAccess S') Ds = [AS_public] /\
      Diags S' = []
  | Crash _ => False
  end.
Proof. vm_compute. repeat split. Qed.

(** The traits of a reflection whose [mods] ask for public, virtual and
    pure, the access being given as [2 ^ 32 + 1]. *)
Lemma ReadTraits_example :
  programSema = programSema /\
  Storage (mkTraits 1 0 false true true) <> Automatic /\
  Storage (mkTraits 1 0 false true true) <> ThreadLocal /\
  0 <= Access (mkTraits 1 0 false true true) < 2 ^ 32 /\
  0 <= Storage (mkTraits 1 0 false true true) < 2 ^ 32 /\
  exists Mods Bs Fs a s c v p,
    GetModifications (memberValue (2 ^ 32 + 1) 0 0 1 1) (RecordTy memberReflection) "mods"
      programSema
    = Done Mods programSema /\
    Mods = APStruct Bs Fs /\
    Fs !! 1%nat = Some (APInt a) /\ Access (mkTraits 1 0 false true true) = castToEnum a /\
    Fs !! 2%nat = Some (APInt s) /\ Storage (mkTraits 1 0 false true true) = castToEnum s /\
    Fs !! 3%nat = Some (APInt c) /\ Constexpr (mkTraits 1 0 false true true) = toBool c /\
    Fs !! 4%nat = Some (APInt v) /\ Virtual (mkTraits 1 0 false true true) = toBool v /\
    Fs !! 5%nat = Some (APInt p) /\ Pure (mkTraits 1 0 false true true) = toBool p.
Proof.
  apply (ReadTraits_returns (RecordTy memberReflection) (memberValue (2 ^ 32 + 1) 0 0 1 1)
           programSema (mkTraits 1 0 false true true) programSema).
  vm_compute. reflexivity.
Defined.

(** An expression of type [int] is no reflection. *)
Lemma recognizers_reject_int_example :
  ReferencesFunction (exampleHost (fun _ => false)) (OtherExpr intTy 3%nat) programSema
  = Done None programSema
  /\ ReferencesParameter (exampleHost (fun _ => false)) (OtherExpr intTy 3%nat) programSema
     = Done None programSema.
Proof.
  apply (recognizers_reject_non_record (exampleHost (fun _ => false)) (OtherExpr intTy 3%nat)
           programSema).
  vm_compute. reflexivity.
Defined.

(** [cppx::function<int>] is not a reflection class of [cppx::meta]. *)
Lemma recognizers_reject_foreign_example :
  ReferencesFunction (exampleHost (fun _ => false))
    (OtherExpr (RecordTy foreignFunction) 3%nat) programSema = Done None programSema
  /\ ReferencesParameter (exampleHost (fun _ => false))
       (OtherExpr (RecordTy foreignFunction) 3%nat) programSema = Done None programSema.
Proof.
  apply (recognizers_reject_foreign_specialization (exampleHost (fun _ => false))
           (OtherExpr (RecordTy foreignFunction) 3%nat) foreignFunction nsCppx (Some nsMeta)
           programSema programSema); vm_compute; reflexivity.
Defined.

(** [meta::reflected_tuple<int>] reflects no function. *)
Lemma ReferencesFunction_tuple_of_int_example :
  ReferencesFunction (exampleHost (fun _ => false))
    (OtherExpr (RecordTy tupleOfInt) 3%nat) programSema = Done None programSema.
Proof.
  apply (ReferencesFunction_rejects_wrong_nesting (exampleHost (fun _ => false))
           (OtherExpr (RecordTy tupleOfInt) 3%nat) tupleOfInt (TA_Type intTy) [] programSema
           programSema); try (vm_compute; reflexivity).
  apply WrongNesting_not_record. reflexivity.
Defined.

(** [function<int>] of the inline namespace is a reflection of a function
    and not of a parameter. *)
Example ReferencesFunction_function_of_int :
  ReferencesFunction (exampleHost (fun _ => false))
    (OtherExpr (RecordTy functionOfInt) 3%nat) programSema
  = Done (Some (RecordTy functionOfInt)) programSema
  /\ ReferencesParameter (exampleHost (fun _ => false))
       (OtherExpr (RecordTy functionOfInt) 3%nat) programSema
     = Done None programSema.
Proof. split; vm_compute; reflexivity. Qed.

(** The traits of a value of the derived reflection class are those of its
    base subobject; a value without that subobject has none. *)
Example ReadTraits_through_base :
  ReadTraits (RecordTy derivedReflection) (APStruct [memberValue 2 1 0 0 0] []) programSema
  = Done (mkTraits 2 1 false false false) programSema
  /\ ReadTraits (RecordTy derivedReflection) (APStruct [] []) programSema
     = Crash AssertionFailed.
Proof. split; vm_compute; reflexivity. Qed.

(** The access trait is the value cast to its enumeration: given as
    [2 ^ 32] it is none, and the copy of [n] succeeds as without traits. *)
Example CopyDeclaration_access_wraps :
  ReadTraits (RecordTy memberReflection) (memberValue (2 ^ 32) 0 0 0 0) programSema
  = Done (mkTraits NoAccess 0 false false false) programSema
  /\ CopyDeclaration (exampleHost (fun _ => false)) 5%nat (RecordTy memberReflection)
       (memberValue (2 ^ 32) 0 0 0 0) classS fieldN [] programSema
     = CopyDeclaration (exampleHost (fun _ => false)) 5%nat (RecordTy memberReflection)
         (memberValue 0 0 0 0 0) classS fieldN [] programSema
  /\ ReadTraits (RecordTy memberReflection) (memberValue 0 (2 ^ 32 + 2) 0 0 0) programSema
     = Crash AssertionFailed.
Proof. repeat apply conj; vm_compute; reflexivity. Qed.

